(** * Pdf-Tools: the page organizer and the merger, verified against their specification

    The development embeds [PdfOrganizer] (page list, selection set, delete,
    move, duplicate, add pages, save) and the saving part of [PdfMerger].
    JavaScript built-ins the handlers rely on ([String.prototype.split],
    [parseInt], number-to-string conversion, [Array.prototype.splice],
    [Date.prototype.toISOString]) are modelled in module [JS]; pdf-lib is an
    interface ([PDFLib]) whose operations may throw. *)

From Stdlib Require Import ZArith Ascii DecimalString DecimalPos Lia.
From stdpp Require Import base option list gmap strings.

Local Open Scope Z_scope.
#[local] Set Warnings "-clear-no-such-hyp".

(** ** JavaScript built-ins *)

Module JS.

(** [s.split(sep)] for a one-character separator. *)
Fixpoint split (sep : ascii) (s : string) : list string :=
  match s with
  | EmptyString => [EmptyString]
  | String c s' =>
      if Ascii.eqb c sep then EmptyString :: split sep s'
      else match split sep s' with
           | t :: ts => String c t :: ts
           | [] => [String c EmptyString]
           end
  end.

(** White space skipped by [parseInt] (the ASCII part of StrWhiteSpaceChar:
    TAB, LF, VT, FF, CR, SP). *)
Definition isWhiteSpace (c : ascii) : bool :=
  let n := Z.of_N (N_of_ascii c) in
  ((9 <=? n) && (n <=? 13)) || (n =? 32).

Fixpoint trimStart (s : string) : string :=
  match s with
  | EmptyString => EmptyString
  | String c s' => if isWhiteSpace c then trimStart s' else s
  end.

(** Value of a character as a digit of a radix up to 36. *)
Definition digitValue (c : ascii) : option Z :=
  let n := Z.of_N (N_of_ascii c) in
  if (48 <=? n) && (n <=? 57) then Some (n - 48)
  else if (97 <=? n) && (n <=? 122) then Some (n - 87)
  else if (65 <=? n) && (n <=? 90) then Some (n - 55)
  else None.

(** The longest prefix of radix-[R] digits, read as a number; [acc] is [None]
    while no digit has been read. *)
Fixpoint parseDigits (R : Z) (s : string) (acc : option Z) : option Z :=
  match s with
  | EmptyString => acc
  | String c s' =>
      match digitValue c with
      | Some d =>
          if d <? R then parseDigits R s' (Some (R * default 0 acc + d))
          else acc
      | None => acc
      end
  end.

(** [parseInt(s)] with no radix argument; [None] is NaN.  Numbers are
    mathematical integers, which is what JavaScript computes as long as the
    value read is below 2^53 (above, it rounds to a double); every value the
    handlers index with is below a page count. *)
Definition stripSign (s : string) : Z * string :=
  match s with
  | String "-" r => (-1, r)
  | String "+" r => (1, r)
  | _ => (1, s)
  end.

Definition stripPrefix (s : string) : Z * string :=
  match s with
  | String "0" (String "x" r) => (16, r)
  | String "0" (String "X" r) => (16, r)
  | _ => (10, s)
  end.

Definition parseInt (s : string) : option Z :=
  let '(sign, s1) := stripSign (trimStart s) in
  let '(R, s2) := stripPrefix s1 in
  Z.mul sign <$> parseDigits R s2 None.

(** [parseInt(a[1])]: a missing element is [undefined], converted to the
    string "undefined" first. *)
Definition parseIntAt1 (tokens : list string) : option Z :=
  parseInt (default "undefined" (tokens !! 1%nat)).

(** Number-to-string conversion of an integer, as a template literal does.
    It is JavaScript's for integers of magnitude below 2^53, which are exact
    and written with all their digits (from 10^21 on JavaScript writes an
    exponent). *)
Definition toString (n : Z) : string :=
  NilEmpty.string_of_int (Z.to_int n).

(** [a[i]] for a number [i]: [None] is [undefined]. *)
Definition at_index {A} (a : list A) (i : Z) : option A :=
  if i <? 0 then None else a !! Z.to_nat i.

(** [a.splice(start, deleteCount, ...items)] on a copy of [a]: the removed
    elements and the array afterwards. *)
Definition splice {A} (a : list A) (start deleteCount : Z) (items : list A)
  : list A * list A :=
  let len := Z.of_nat (length a) in
  let s := if start <? 0 then Z.max (len + start) 0 else Z.min start len in
  let dc := Z.min (Z.max deleteCount 0) (len - s) in
  (take (Z.to_nat dc) (drop (Z.to_nat s) a),
   take (Z.to_nat s) a ++ items ++ drop (Z.to_nat (s + dc)) a).

(** ["0".repeat(n)]. *)
Fixpoint zeros (n : nat) : string :=
  match n with
  | O => EmptyString
  | S n' => String "0" (zeros n')
  end.

(** [s.padStart(w, "0")]. *)
Definition padStart0 (w : nat) (s : string) : string :=
  zeros (w - String.length s) +:+ s.

(** Civil date of a day number (days since 1970-01-01), proleptic Gregorian
    calendar, as YearFromTime / MonthFromTime / DateFromTime compute it. *)
Definition civilFromDays (days : Z) : Z * Z * Z :=
  let z := days + 719468 in
  let era := z / 146097 in
  let doe := z - era * 146097 in
  let yoe := (doe - doe / 1460 + doe / 36524 - doe / 146096) / 365 in
  let doy := doe - (365 * yoe + yoe / 4 - yoe / 100) in
  let mp := (5 * doy + 2) / 153 in
  let d := doy - (153 * mp + 2) / 5 + 1 in
  let m := if mp <? 10 then mp + 3 else mp - 9 in
  let y := yoe + era * 400 + (if m <=? 2 then 1 else 0) in
  (y, m, d).

Definition msPerDay : Z := 86400000.

(** The year of an ISO string: four digits for 0..9999, otherwise a sign and
    six digits. *)
Definition isoYear (y : Z) : string :=
  if (0 <=? y) && (y <=? 9999) then padStart0 4 (toString y)
  else (if y <? 0 then "-" else "+") +:+ padStart0 6 (toString (Z.abs y)).

Definition isoDate (days : Z) : string :=
  let '(y, m, d) := civilFromDays days in
  isoYear y +:+ "-" +:+ padStart0 2 (toString m) +:+ "-" +:+ padStart0 2 (toString d).

Definition isoTime (msInDay : Z) : string :=
  padStart0 2 (toString (msInDay / 3600000)) +:+ ":" +:+
  padStart0 2 (toString (msInDay / 60000 mod 60)) +:+ ":" +:+
  padStart0 2 (toString (msInDay / 1000 mod 60)) +:+ "." +:+
  padStart0 3 (toString (msInDay mod 1000)) +:+ "Z".

(** [new Date(t).toISOString()] for a time value [t] in milliseconds. *)
Definition toISOString (t : Z) : string :=
  isoDate (t / msPerDay) +:+ "T" +:+ isoTime (t mod msPerDay).

(** Character classes and the value of a digit sequence, for reasoning about
    the strings built above. *)
Fixpoint allChars (P : ascii -> bool) (s : string) : bool :=
  match s with
  | EmptyString => true
  | String c s' => P c && allChars P s'
  end.

Definition isDigit (c : ascii) : bool :=
  let n := Z.of_N (N_of_ascii c) in (48 <=? n) && (n <=? 57).

Definition isDigitOrSign (c : ascii) : bool :=
  isDigit c || Ascii.eqb c "-" || Ascii.eqb c "+".

Definition isNot (x c : ascii) : bool := negb (Ascii.eqb c x).

(** The number written by the digits [d] after a prefix worth [a]. *)
Fixpoint uintValue (d : Decimal.uint) (a : Z) : Z :=
  match d with
  | Decimal.Nil => a
  | Decimal.D0 d => uintValue d (10 * a + 0)
  | Decimal.D1 d => uintValue d (10 * a + 1)
  | Decimal.D2 d => uintValue d (10 * a + 2)
  | Decimal.D3 d => uintValue d (10 * a + 3)
  | Decimal.D4 d => uintValue d (10 * a + 4)
  | Decimal.D5 d => uintValue d (10 * a + 5)
  | Decimal.D6 d => uintValue d (10 * a + 6)
  | Decimal.D7 d => uintValue d (10 * a + 7)
  | Decimal.D8 d => uintValue d (10 * a + 8)
  | Decimal.D9 d => uintValue d (10 * a + 9)
  end.

End JS.

(** ** pdf-lib and the browser's file objects *)

Definition Bytes := list Byte.byte.

(** A [File] of the browser: its name, its MIME type and the bytes
    [file.arrayBuffer()] resolves to. *)
Record File := { name : string; type : string; arrayBuffer : Bytes }.

(** What the handlers use of pdf-lib and of the browser.  A document is the
    list of its pages; [None] stands for a thrown exception. *)
Class PDFLib := {
  Page : Type;
  load : Bytes -> option (list Page);        (* PDFDocument.load(bytes) *)
  save : list Page -> option Bytes;          (* doc.save() *)
  createObjectURL : Bytes -> string;         (* URL.createObjectURL(new Blob([bytes])) *)
}.

Section Library.
Context `{PDFLib}.

Definition PDFDocument := list Page.

(** [PDFDocument.create()]. *)
Definition create : PDFDocument := [].

Definition getPageCount (doc : PDFDocument) : Z := Z.of_nat (length doc).

(** [const [copiedPage] = await dst.copyPages(src, [i])]: an index outside
    [src] makes the library throw. *)
Definition copyPage (src : PDFDocument) (i : Z) : option Page := JS.at_index src i.

(** [dst.copyPages(src, src.getPageIndices())]. *)
Definition copyAllPages (src : PDFDocument) : list Page := src.

Definition addPage (doc : PDFDocument) (p : Page) : PDFDocument := doc ++ [p].

End Library.

(** What a save or merge action leaves the user with. *)
Inductive Outcome :=
| NotStarted                                      (* the handler returned at its guard *)
| Alerted                                         (* the catch block ran: alert, nothing delivered *)
| Downloaded (fileName : string) (blob : Bytes).  (* saveAs(blob, fileName) *)

(** ** PdfOrganizer *)

Module Organizer.

Record PdfPage := {
  id : string;
  pageNumber : Z;
  thumbnail : string;
  originalIndex : Z;
}.

Inductive Alert :=
| AlertLoad        (* 'Error loading PDF. Please ensure the file is a valid PDF document.' *)
| AlertDeleteAll   (* 'Cannot delete all pages. At least one page must remain.' *)
| AlertAdd.        (* 'Error adding pages from PDF.' *)

Section Handlers.
Context `{PDFLib}.

(** The component's state.  [isProcessing], [dragActive] and [dragOverIndex]
    only drive rendering and are back to their idle value when a handler has
    finished; they are left out. *)
Record State := {
  pdfFile : option File;
  pdfDoc : option PDFDocument;
  pages : list PdfPage;
  selectedPages : gset string;
  draggedPageId : option string;
}.

Definition initial : State :=
  {| pdfFile := None; pdfDoc := None; pages := []; selectedPages := ∅;
     draggedPageId := None |}.

Definition setPages (st : State) (ps : list PdfPage) : State :=
  {| pdfFile := pdfFile st; pdfDoc := pdfDoc st; pages := ps;
     selectedPages := selectedPages st; draggedPageId := draggedPageId st |}.

Definition setSelectedPages (st : State) (sel : gset string) : State :=
  {| pdfFile := pdfFile st; pdfDoc := pdfDoc st; pages := pages st;
     selectedPages := sel; draggedPageId := draggedPageId st |}.

Definition setPdfFile (st : State) (f : option File) : State :=
  {| pdfFile := f; pdfDoc := pdfDoc st; pages := pages st;
     selectedPages := selectedPages st; draggedPageId := draggedPageId st |}.

Definition setPdfDoc (st : State) (d : option PDFDocument) : State :=
  {| pdfFile := pdfFile st; pdfDoc := d; pages := pages st;
     selectedPages := selectedPages st; draggedPageId := draggedPageId st |}.

Definition setDraggedPageId (st : State) (d : option string) : State :=
  {| pdfFile := pdfFile st; pdfDoc := pdfDoc st; pages := pages st;
     selectedPages := selectedPages st; draggedPageId := d |}.

Definition generateThumbnail (pdfDoc : PDFDocument) (pageIndex : Z) : option string :=
  copiedPage ← copyPage pdfDoc pageIndex;
  pdfBytes ← save (addPage create copiedPage);
  Some (createObjectURL pdfBytes).

(** The loop of [handleFile]: [n] iterations are left, [i] is the counter. *)
Fixpoint handleFile_loop (pdf : PDFDocument) (n : nat) (i : Z)
    (pagesList : list PdfPage) : option (list PdfPage) :=
  match n with
  | O => Some pagesList
  | S n' =>
      thumbnail ← generateThumbnail pdf i;
      handleFile_loop pdf n' (i + 1)
        (pagesList ++ [ {| id := "page-" +:+ JS.toString i;
                           pageNumber := i + 1;
                           thumbnail := thumbnail;
                           originalIndex := i |} ])
  end.

Definition handleFile (st : State) (file : File) : State * option Alert :=
  let st := setSelectedPages (setPdfFile st (Some file)) ∅ in
  match load (arrayBuffer file) with
  | None => (st, Some AlertLoad)
  | Some pdf =>
      let st := setPdfDoc st (Some pdf) in
      match handleFile_loop pdf (length pdf) 0 [] with
      | None => (st, Some AlertLoad)
      | Some pagesList => (setPages st pagesList, None)
      end
  end.

Definition togglePageSelection (st : State) (id : string) : State :=
  setSelectedPages st
    (if decide (id ∈ selectedPages st) then selectedPages st ∖ {[ id ]}
     else selectedPages st ∪ {[ id ]}).

Definition deleteSelectedPages (st : State) : State * option Alert :=
  if decide (size (selectedPages st) = 0%nat) then (st, None)
  else if decide (length (pages st) = size (selectedPages st)) then
    (st, Some AlertDeleteAll)
  else
    (setSelectedPages
       (setPages st (filter (λ page, id page ∉ selectedPages st) (pages st))) ∅,
     None).

(** [movePage] on the array.  For a [fromIndex] at which the array has no
    element, [removed] is [undefined] and the source would store it in the
    array, which [PdfPage[]] cannot hold: [None]. *)
Definition movePage {A} (pages : list A) (fromIndex toIndex : Z) : option (list A) :=
  if (toIndex <? 0) || (toIndex >=? Z.of_nat (length pages)) then Some pages
  else
    let '(removed, newPages) := JS.splice pages fromIndex 1 [] in
    match removed with
    | removed :: _ => Some (JS.splice newPages toIndex 0 [removed]).2
    | [] => None
    end.

(** [duplicatePage]; [now] is [Date.now()] and [rnd] the text of
    [Math.random()].  Where [prev[index]] is [undefined] the spread yields an
    object with an [id] only, not a [PdfPage]: [None]. *)
Definition duplicatePage (now : Z) (rnd : string) (prev : list PdfPage) (index : Z)
  : option (list PdfPage) :=
  page ← JS.at_index prev index;
  let pageToDuplicate :=
    {| id := "page-" +:+ JS.toString now +:+ "-" +:+ rnd;
       pageNumber := pageNumber page;
       thumbnail := thumbnail page;
       originalIndex := originalIndex page |} in
  Some (JS.splice prev (index + 1) 0 [pageToDuplicate]).2.

(** The loop of [addPagesFromFile]; [now i] is [Date.now()] in iteration [i]
    and [len] is [pages.length] of the render the handler was created in. *)
Fixpoint addPages_loop (newPdf : PDFDocument) (now : Z -> Z) (len : Z) (n : nat)
    (i : Z) (newPages : list PdfPage) : option (list PdfPage) :=
  match n with
  | O => Some newPages
  | S n' =>
      thumbnail ← generateThumbnail newPdf i;
      addPages_loop newPdf now len n' (i + 1)
        (newPages ++ [ {| id := "page-" +:+ JS.toString (now i) +:+ "-" +:+ JS.toString i;
                          pageNumber := len + i + 1;
                          thumbnail := thumbnail;
                          originalIndex := i |} ])
  end.

(** [files] is [e.target.files]: [None] for [null]. *)
Definition addPagesFromFile (st : State) (files : option (list File)) (now : Z -> Z)
  : State * option Alert :=
  match files with
  | None | Some [] => (st, None)
  | Some (file :: _) =>
      match load (arrayBuffer file) with
      | None => (st, Some AlertAdd)
      | Some newPdf =>
          match addPages_loop newPdf now (Z.of_nat (length (pages st)))
                  (length newPdf) 0 [] with
          | None => (st, Some AlertAdd)
          | Some newPages => (setPages st (pages st ++ newPages), None)
          end
      end
  end.

(** The loop of [savePdf] over the entries left to visit. *)
Fixpoint savePdf_loop (originalPdf : PDFDocument) (ps : list PdfPage)
    (newPdf : PDFDocument) : option PDFDocument :=
  match ps with
  | [] => Some newPdf
  | page :: rest =>
      match JS.parseIntAt1 (JS.split "-" (id page)) with
      | Some pageIndex =>
          if pageIndex <? getPageCount originalPdf then
            copiedPage ← copyPage originalPdf pageIndex;
            savePdf_loop originalPdf rest (addPage newPdf copiedPage)
          else savePdf_loop originalPdf rest newPdf
      | None => savePdf_loop originalPdf rest newPdf
      end
  end.

(** The page index an identity stands for in [savePdf]: the identity split on
    ['-'], its second token read as an integer ([None]: NaN). *)
Definition entryIndex (page : PdfPage) : option Z :=
  JS.parseIntAt1 (JS.split "-" (id page)).

(** An entry whose index is a number below the page count of the document. *)
Definition validIndex (originalPdf : PDFDocument) (page : PdfPage) : bool :=
  match entryIndex page with
  | Some pageIndex => pageIndex <? getPageCount originalPdf
  | None => false
  end.

(** The body of the [try] block of [savePdf] up to [newPdf.save()]: the
    document handed to the serializer. *)
Definition savePdf_newPdf (st : State) : option PDFDocument :=
  file ← pdfFile st;
  originalPdf ← load (arrayBuffer file);
  savePdf_loop originalPdf (pages st) create.

Definition savePdf (st : State) : Outcome :=
  match pdfDoc st with
  | None => NotStarted
  | Some _ =>
      if decide (length (pages st) = 0%nat) then NotStarted
      else
        match (newPdf ← savePdf_newPdf st; save newPdf), pdfFile st with
        | Some pdfBytes, Some file => Downloaded ("organized-" +:+ name file) pdfBytes
        | _, _ => Alerted
        end
  end.

Definition resetOrganizer (st : State) : State := initial.

Definition handlePageDragStart (st : State) (pageId : string) : State :=
  setDraggedPageId st (Some pageId).

(** [a.findIndex(p => p.id === x)]. *)
Fixpoint findIndex (x : string) (ps : list PdfPage) (i : Z) : Z :=
  match ps with
  | [] => -1
  | p :: rest => if decide (id p = x) then i else findIndex x rest (i + 1)
  end.

(** [handlePageDrop].  The guard [!draggedPageId] returns for [null] and for
    the empty string.  [None] where [draggedPage] would be [undefined], as in
    [movePage] (it never is: [draggedIndex] is an index of the array). *)
Definition handlePageDrop (st : State) (dropIndex : Z) : option State :=
  match draggedPageId st with
  | None => Some st
  | Some dragged =>
      if decide (dragged = "") then Some st
      else
        let draggedIndex := findIndex dragged (pages st) 0 in
        if (draggedIndex =? -1) || (draggedIndex =? dropIndex) then
          Some (setDraggedPageId st None)
        else
          let '(removed, newPages) := JS.splice (pages st) draggedIndex 1 [] in
          match removed with
          | draggedPage :: _ =>
              let finalIndex :=
                if draggedIndex <? dropIndex then dropIndex - 1 else dropIndex in
              Some (setDraggedPageId
                      (setPages st (JS.splice newPages finalIndex 0 [draggedPage]).2)
                      None)
          | [] => None
          end
  end.

(** *** The user's actions

    A card is rendered for each element of [pages], the upload area while
    [pdfFile] is [null] and the panel with the cards otherwise; a disabled
    button yields no click.  Here every handler has run to its end before
    the next action, also the two that suspend ([handleFile],
    [addPagesFromFile]): [step] and [run] describe the sessions in which the
    user waits for a load or an addition to finish.  Module [Interleaved]
    below lets actions arrive while these handlers are suspended. *)
Inductive Event :=
| DropFiles (files : list File)                   (* onDrop of the upload area *)
| FileInput (files : option (list File))          (* onChange of its input *)
| ClickPage (index : nat)                         (* onClick of a card *)
| ClickDelete
| ClickLeft (index : nat)
| ClickCopy (index : nat) (now : Z) (rnd : string)
| ClickRight (index : nat)
| AddPagesInput (files : option (list File)) (now : Z -> Z)
| ClickReset
| DragStartPage (index : nat)
| DropOnPage (index : nat).

(** The state after an action, [None] when the action's control is not
    rendered or disabled, or when the handler leaves the typed model. *)
Definition step (st : State) (ev : Event) : option State :=
  match ev, pdfFile st with
  | DropFiles files, None =>
      match files with
      | f :: _ => if decide (type f = "application/pdf") then Some (handleFile st f).1 else Some st
      | [] => Some st
      end
  | FileInput files, None =>
      match files with
      | Some (f :: _) => Some (handleFile st f).1
      | _ => Some st
      end
  | ClickPage index, Some _ =>
      page ← pages st !! index; Some (togglePageSelection st (id page))
  | ClickDelete, Some _ =>
      if decide (size (selectedPages st) = 0%nat) then None
      else Some (deleteSelectedPages st).1
  | ClickLeft index, Some _ =>
      _ ← pages st !! index;
      if decide (index = 0%nat) then None
      else setPages st <$> movePage (pages st) (Z.of_nat index) (Z.of_nat index - 1)
  | ClickRight index, Some _ =>
      _ ← pages st !! index;
      if decide (Z.of_nat index = Z.of_nat (length (pages st)) - 1) then None
      else setPages st <$> movePage (pages st) (Z.of_nat index) (Z.of_nat index + 1)
  | ClickCopy index now rnd, Some _ =>
      _ ← pages st !! index;
      setPages st <$> duplicatePage now rnd (pages st) (Z.of_nat index)
  | AddPagesInput files now, Some _ => Some (addPagesFromFile st files now).1
  | ClickReset, Some _ => Some (resetOrganizer st)
  | DragStartPage index, Some _ =>
      page ← pages st !! index; Some (handlePageDragStart st (id page))
  | DropOnPage index, Some _ =>
      _ ← pages st !! index; handlePageDrop st (Z.of_nat index)
  | _, _ => None
  end.

Fixpoint run (st : State) (evs : list Event) : option State :=
  match evs with
  | [] => Some st
  | ev :: evs' => st' ← step st ev; run st' evs'
  end.

Definition reachable (st : State) : Prop := ∃ evs, run initial evs = Some st.

(** Every selected identity is the identity of an entry. *)
Definition selection_consistent (st : State) : Prop :=
  ∀ x, x ∈ selectedPages st → x ∈ id <$> pages st.

(** A sequence of [movePage] calls, each given as [(fromIndex, toIndex)]. *)
Fixpoint movePages {A} (l : list A) (ms : list (Z * Z)) : option (list A) :=
  match ms with
  | [] => Some l
  | (i, t) :: ms' => l' ← movePage l i t; movePages l' ms'
  end.




(** [pdfDoc] is what the library parsed from [pdfFile]; with no file there is
    no document and no entry. *)
Definition document_of_file (st : State) : Prop :=
  match pdfFile st with
  | Some file => pdfDoc st = load (arrayBuffer file)
  | None => pdfDoc st = None /\ pages st = []
  end.

End Handlers.
End Organizer.

(** ** PdfOrganizer with suspended handlers

    [handleFile] and [addPagesFromFile] write state before and after their
    awaits, and the page stays usable in between.  A suspended handler is a
    task; an action is a user action or the resumption of a task.
    [isProcessing] is part of the state here, since it decides whether only
    the spinner is rendered.  ([savePdf], which writes [isProcessing] only,
    is not among the actions.) *)

Module Interleaved.
Import Organizer.

Section Handlers.
Context `{PDFLib}.

Inductive Task :=
| Loading (file : File)                        (* handleFile, before PDFDocument.load has resolved *)
| Thumbnails (pdf : PDFDocument)               (* handleFile, after setPdfDoc, in its loop *)
| Adding (file : File) (len : Z) (now : Z -> Z).
                                               (* addPagesFromFile, with pages.length of its render *)

Record Running := {
  ui : State;
  isProcessing : bool;
  pending : list Task;
}.

Definition initial : Running :=
  {| ui := Organizer.initial; isProcessing := false; pending := [] |}.

Inductive Action :=
| User (ev : Event)
| Resume (k : nat).

(** With a file, [isProcessing && pages.length === 0] renders the spinner in
    place of the panel. *)
Definition spinner (st : Running) : bool :=
  isProcessing st && bool_decide (pages (ui st) = []).

(** [handleFile] up to its first await. *)
Definition handleFile_begin (st : Running) (file : File) : Running :=
  {| ui := setSelectedPages (setPdfFile (ui st) (Some file)) ∅;
     isProcessing := true;
     pending := pending st ++ [Loading file] |}.

(** [addPagesFromFile] up to its first await. *)
Definition addPages_begin (st : Running) (files : option (list File)) (now : Z -> Z)
  : Running :=
  match files with
  | None | Some [] => st
  | Some (file :: _) =>
      {| ui := ui st;
         isProcessing := true;
         pending := pending st
                    ++ [Adding file (Z.of_nat (length (pages (ui st)))) now] |}
  end.

(** The [catch] and [finally] blocks, or the end of the [try] block after
    its last write [u]. *)
Definition finish (st : Running) (k : nat) (u : State) : Running :=
  {| ui := u; isProcessing := false; pending := delete k (pending st) |}.

(** The [k]-th task runs from its await to its next one, or to its end.  A
    document without pages leaves [handleFile] no await after [setPdfDoc]. *)
Definition resume (st : Running) (k : nat) (task : Task) : Running :=
  match task with
  | Loading file =>
      match load (arrayBuffer file) with
      | None => finish st k (ui st)
      | Some pdf =>
          match pdf with
          | [] => finish st k (setPages (setPdfDoc (ui st) (Some pdf)) [])
          | _ :: _ =>
              {| ui := setPdfDoc (ui st) (Some pdf);
                 isProcessing := isProcessing st;
                 pending := <[k := Thumbnails pdf]> (pending st) |}
          end
      end
  | Thumbnails pdf =>
      match handleFile_loop pdf (length pdf) 0 [] with
      | None => finish st k (ui st)
      | Some pagesList => finish st k (setPages (ui st) pagesList)
      end
  | Adding file len now =>
      match load (arrayBuffer file) with
      | None => finish st k (ui st)
      | Some newPdf =>
          match addPages_loop newPdf now len (length newPdf) 0 [] with
          | None => finish st k (ui st)
          | Some newPages => finish st k (setPages (ui st) (pages (ui st) ++ newPages))
          end
      end
  end.

Definition with_ui (st : Running) (u : State) : Running :=
  {| ui := u; isProcessing := isProcessing st; pending := pending st |}.

(** The state after an action; [None] when its control is not rendered or
    the task does not exist.  The handlers that do not suspend are those of
    [Organizer.step]. *)
Definition step (st : Running) (a : Action) : option Running :=
  match a with
  | Resume k => task ← pending st !! k; Some (resume st k task)
  | User ev =>
      match ev, pdfFile (ui st) with
      | DropFiles files, None =>
          match files with
          | f :: _ =>
              if decide (type f = "application/pdf") then Some (handleFile_begin st f)
              else Some st
          | [] => Some st
          end
      | FileInput files, None =>
          match files with
          | Some (f :: _) => Some (handleFile_begin st f)
          | _ => Some st
          end
      | _, None => None
      | AddPagesInput files now, Some _ =>
          if spinner st then None else Some (addPages_begin st files now)
      | _, Some _ =>
          if spinner st then None else with_ui st <$> Organizer.step (ui st) ev
      end
  end.

Fixpoint run (st : Running) (acts : list Action) : option Running :=
  match acts with
  | [] => Some st
  | a :: acts' => st' ← step st a; run st' acts'
  end.

(** Up to [n] resumptions of the oldest task with no action in between. *)
Fixpoint settle (n : nat) (st : Running) : Running :=
  match n with
  | O => st
  | S n' =>
      match step st (Resume 0) with
      | Some st' => settle n' st'
      | None => st
      end
  end.

End Handlers.
End Interleaved.

(** ** PdfMerger *)

Module Merger.

Record PdfFile := {
  id : string;
  file : File;
  name : string;
  size : string;
}.

Inductive Direction := Up | Down.

Definition removePdf (prev : list PdfFile) (x : string) : list PdfFile :=
  filter (fun pdf => id pdf <> x) prev.

(** [movePdf] on the array: the destructuring assignment reads both elements
    and then writes [newPdfs[index]] and [newPdfs[targetIndex]].  With a
    target inside the array and an [index] outside it the assignment would
    store [undefined]: [None]. *)
Definition movePdf {A} (prev : list A) (index : Z) (direction : Direction)
  : option (list A) :=
  let targetIndex := match direction with Up => index - 1 | Down => index + 1 end in
  if (targetIndex >=? 0) && (targetIndex <? Z.of_nat (length prev)) then
    match JS.at_index prev targetIndex, JS.at_index prev index with
    | Some atTarget, Some atIndex =>
        Some (<[Z.to_nat targetIndex := atIndex]> (<[Z.to_nat index := atTarget]> prev))
    | _, _ => None
    end
  else Some prev.

Section Files.
(** [formatFileSize] computes with floating-point logarithms and [toFixed];
    [handleFiles] only stores its result. *)
Variable formatFileSize : Z -> string.

(** [handleFiles]; [now k] and [rnd k] are [Date.now()] and the text of
    [Math.random()] for the [k]-th PDF file. *)
Definition handleFiles (prev : list PdfFile) (files : list File)
    (now : nat -> Z) (rnd : nat -> string) : list PdfFile :=
  let pdfFiles := filter (fun f => type f = "application/pdf") files in
  let newPdfs :=
    imap (fun k f =>
            {| id := JS.toString (now k) +:+ rnd k;
               file := f;
               name := (let 'Build_File fileName _ _ := f in fileName);
               size := formatFileSize (Z.of_nat (length (arrayBuffer f))) |})
         pdfFiles in
  prev ++ newPdfs.

End Files.

Section Handlers.
Context `{PDFLib}.

Fixpoint mergePdfs_loop (pdfs : list PdfFile) (mergedPdf : PDFDocument)
  : option PDFDocument :=
  match pdfs with
  | [] => Some mergedPdf
  | pdfFile :: rest =>
      pdf ← load (arrayBuffer (file pdfFile));
      mergePdfs_loop rest (foldl addPage mergedPdf (copyAllPages pdf))
  end.

(** [now] is the time value of [new Date()]. *)
Definition mergePdfs (pdfs : list PdfFile) (now : Z) : Outcome :=
  if Z.of_nat (length pdfs) <? 2 then NotStarted
  else
    match mergedPdf ← mergePdfs_loop pdfs create; save mergedPdf with
    | Some pdfBytes =>
        Downloaded
          ("merged-pdfs-"
             +:+ default "undefined" (JS.split "T" (JS.toISOString now) !! 0%nat)
             +:+ ".pdf")
          pdfBytes
    | None => Alerted
    end.

End Handlers.
End Merger.

(** ** ImageToPdf *)

Module ImageToPdf.

(** [moveImage] on the array: as [movePage], without a guard on [toIndex]. *)
Definition moveImage {A} (prev : list A) (fromIndex toIndex : Z) : option (list A) :=
  let '(removed, newImages) := JS.splice prev fromIndex 1 [] in
  match removed with
  | removed :: _ => Some (JS.splice newImages toIndex 0 [removed]).2
  | [] => None
  end.

End ImageToPdf.

(** ** A small instance of the library

    A document's bytes are a [%] followed by its pages, one byte each;
    anything else does not parse. *)
Module Toy.

Definition lib : PDFLib :=
  {| Page := Byte.byte;
     load bs := match bs with Byte.x25 :: ps => Some ps | _ => None end;
     save doc := Some (Byte.x25 :: doc);
     createObjectURL bs := "blob:" +:+ String.string_of_list_byte bs |}.

Definition file_a : File :=
  {| name := "a.pdf"; type := "application/pdf";
     arrayBuffer := [Byte.x25; Byte.x41; Byte.x42; Byte.x43] |}.

Definition file_b : File :=
  {| name := "b.pdf"; type := "application/pdf";
     arrayBuffer := [Byte.x25; Byte.x41; Byte.x42; Byte.x43] |}.

Definition file_one : File :=
  {| name := "one.pdf"; type := "application/pdf";
     arrayBuffer := [Byte.x25; Byte.x41] |}.

Definition file_bad : File :=
  {| name := "notes.txt"; type := "application/pdf";
     arrayBuffer := [Byte.x68; Byte.x69] |}.

Definition loaded (f : File) : Organizer.State (H := lib) :=
  (Organizer.handleFile (H := lib) Organizer.initial f).1.

Definition stamp : Z := 1700000000000.

(** The three pages of [file_a] loaded, then two, then all three selected. *)
Definition two_selected : Organizer.State (H := lib) :=
  Organizer.togglePageSelection
    (Organizer.togglePageSelection (loaded file_a) "page-0") "page-1".

Definition all_selected : Organizer.State (H := lib) :=
  Organizer.togglePageSelection two_selected "page-2".

(** [file_one] loaded and its page copied. *)
Definition copied_events : list Organizer.Event :=
  [Organizer.FileInput (Some [file_one]); Organizer.ClickCopy 0 stamp "0.5"].

Definition copied : Organizer.State (H := lib) :=
  default Organizer.initial (Organizer.run (H := lib) Organizer.initial copied_events).

(** [file_a] loaded, its first and last page clicked. *)
Definition clicked_events : list Organizer.Event :=
  [Organizer.DropFiles [file_a]; Organizer.ClickPage 0; Organizer.ClickPage 2].

Definition clicked : Organizer.State (H := lib) :=
  default Organizer.initial (Organizer.run (H := lib) Organizer.initial clicked_events).

(** The entry [handleFile] makes for page [k], with its thumbnail. *)
Definition entry (k : Z) (url : string) : Organizer.PdfPage :=
  {| Organizer.id := "page-" +:+ JS.toString k;
     Organizer.pageNumber := k + 1;
     Organizer.thumbnail := url;
     Organizer.originalIndex := k |}.

(** [file_a] loaded and a drag of its first page begun. *)
Definition dragging : Organizer.State (H := lib) :=
  Organizer.handlePageDragStart (loaded file_a) "page-0".

(** [file_a] loaded, its first page moved right, the last page selected and
    deleted. *)
Definition edited_events : list Organizer.Event :=
  [Organizer.DropFiles [file_a]; Organizer.ClickRight 0; Organizer.ClickPage 2;
   Organizer.ClickDelete].

Definition edited : Organizer.State (H := lib) :=
  default Organizer.initial (Organizer.run (H := lib) Organizer.initial edited_events).

(** [file_a] loaded; pages of [file_one] being added when the user resets;
    the addition ends; [file_a] is loaded again and, while that load is
    suspended, the user clicks the card the addition left behind. *)
Definition stale_actions : list (Interleaved.Action) :=
  [Interleaved.User (Organizer.FileInput (Some [file_a]));
   Interleaved.Resume 0; Interleaved.Resume 0;
   Interleaved.User (Organizer.AddPagesInput (Some [file_one]) (fun _ => stamp));
   Interleaved.User Organizer.ClickReset;
   Interleaved.Resume 0;
   Interleaved.User (Organizer.FileInput (Some [file_a]));
   Interleaved.User (Organizer.ClickPage 0);
   Interleaved.Resume 0; Interleaved.Resume 0].

(** [file_a] loaded, its first page and an identity of no entry selected. *)
Definition ghost_selected : Organizer.State (H := lib) :=
  Organizer.togglePageSelection
    (Organizer.togglePageSelection (loaded file_a) "page-0") "ghost".

(** [file_one] loaded, its page copied twice with the same clock reading and
    random number, the page and one copy clicked. *)
Definition twin_events : list Organizer.Event :=
  [Organizer.FileInput (Some [file_one]);
   Organizer.ClickCopy 0 stamp "0.5"; Organizer.ClickCopy 0 stamp "0.5";
   Organizer.ClickPage 0; Organizer.ClickPage 1].

Definition twins : Organizer.State (H := lib) :=
  default Organizer.initial (Organizer.run (H := lib) Organizer.initial twin_events).

Definition file_png : File :=
  {| name := "scan.png"; type := "image/png"; arrayBuffer := [Byte.x89; Byte.x50] |}.

Definition listed (x : string) (f : File) : Merger.PdfFile :=
  {| Merger.id := x; Merger.file := f; Merger.name := name f; Merger.size := "" |}.

Definition two_pdfs : list Merger.PdfFile := [listed "1" file_a; listed "2" file_one].

End Toy.

Example split_ex : JS.split "-" "page-1700000000000-0.25" = ["page"; "1700000000000"; "0.25"].
Proof. reflexivity. Qed.
Example parseInt_ex : JS.parseInt " 42px" = Some 42 /\ JS.parseInt "0x1f" = Some 31 /\ JS.parseInt "px" = None /\ JS.parseInt "-7" = Some (-7).
Proof. repeat split. Qed.
Example iso_ex : JS.toISOString 1700000000000 = "2023-11-14T22:13:20.000Z".
Proof. vm_compute. reflexivity. Qed.
Example iso_ex2 : JS.toISOString (-1) = "1969-12-31T23:59:59.999Z".
Proof. vm_compute. reflexivity. Qed.
Example iso_ex3 :
  JS.toISOString 1709164800000 = "2024-02-29T00:00:00.000Z" /\
  JS.toISOString 253402300800000 = "+010000-01-01T00:00:00.000Z" /\
  JS.toISOString 951782400000 = "2000-02-29T00:00:00.000Z" /\
  JS.toISOString 4107542400000 = "2100-03-01T00:00:00.000Z".
Proof. repeat split; vm_compute; reflexivity. Qed.
Example splice_ex : JS.splice [1;2;3;4] (-1) 1 [] = ([4], [1;2;3]) /\ JS.splice [1;2;3] 7 0 [9] = ([], [1;2;3;9]).
Proof. split; reflexivity. Qed.

Example toy_load : Organizer.id <$> Organizer.pages (Toy.loaded Toy.file_a) = ["page-0"; "page-1"; "page-2"].
Proof. vm_compute. reflexivity. Qed.
Example toy_save : Organizer.savePdf (Toy.loaded Toy.file_a) = Downloaded "organized-a.pdf" (arrayBuffer Toy.file_a).
Proof. vm_compute. reflexivity. Qed.

(** * Facts about the built-ins *)

Module JSFacts.
Import JS.

Lemma allChars_app P a b : allChars P (a +:+ b) = allChars P a && allChars P b.
Proof. induction a as [|c a IH]; simpl; [done|]. by rewrite IH, andb_assoc. Qed.

Lemma allChars_weaken (P Q : ascii -> bool) s :
  (forall c, P c = true -> Q c = true) -> allChars P s = true -> allChars Q s = true.
Proof.
  intros HPQ. induction s as [|c s IH]; simpl; [done|].
  rewrite !andb_true_iff. intros [? ?]. auto.
Qed.

Lemma string_of_uint_digits d : allChars isDigit (NilEmpty.string_of_uint d) = true.
Proof. induction d; simpl; auto. Qed.

Lemma toString_digits n : 0 <= n -> allChars isDigit (toString n) = true.
Proof.
  intros Hn. unfold toString. destruct n as [|p|p]; [done| |lia].
  apply string_of_uint_digits.
Qed.

Lemma toString_chars n : allChars isDigitOrSign (toString n) = true.
Proof.
  unfold toString. destruct n as [|p|p]; simpl; [done| |];
    eapply allChars_weaken, string_of_uint_digits;
    intros c Hc; unfold isDigitOrSign; by rewrite Hc.
Qed.

Lemma toString_nonempty n : toString n <> EmptyString.
Proof.
  unfold toString. destruct n as [|p|p]; simpl; [done| |done].
  pose proof (DecimalPos.Unsigned.to_uint_nonnil p) as Hp.
  by destruct (Pos.to_uint p).
Qed.

(** *** [parseInt] reads back what [toString] writes *)

Lemma parseDigits_uint d a :
  0 <= a -> parseDigits 10 (NilEmpty.string_of_uint d) (Some a) = Some (uintValue d a).
Proof.
  revert a. induction d; intros a Ha; simpl; [done|..]; apply IHd; lia.
Qed.

Lemma parseDigits_uint_start d :
  d <> Decimal.Nil ->
  parseDigits 10 (NilEmpty.string_of_uint d) None = Some (uintValue d 0).
Proof. destruct d; [done|..]; intros _; simpl; by apply parseDigits_uint. Qed.

Lemma uintValue_acc d acc :
  uintValue d (Z.pos acc) = Z.pos (Pos.of_uint_acc d acc).
Proof.
  revert acc. induction d; intros acc; simpl; [done|..];
    (etrans; [|apply IHd]); f_equal; lia.
Qed.

Lemma uintValue_of_uint d : uintValue d 0 = Z.of_N (Pos.of_uint d).
Proof.
  induction d; simpl; [done|done|..];
    match goal with |- uintValue _ ?k = _ => change k with (Z.pos (Z.to_pos k)) end;
    by rewrite uintValue_acc.
Qed.

Lemma parseDigits_toString n :
  0 <= n -> parseDigits 10 (toString n) None = Some n.
Proof.
  intros Hn. unfold toString. destruct n as [|p|p]; [done| |lia]. simpl.
  rewrite parseDigits_uint_start by apply DecimalPos.Unsigned.to_uint_nonnil.
  by rewrite uintValue_of_uint, DecimalPos.Unsigned.of_to.
Qed.

Ltac ascii_cases c :=
  destruct c as [[] [] [] [] [] [] [] []].

Lemma isDigit_not_space c : isDigit c = true -> isWhiteSpace c = false.
Proof. ascii_cases c; intros Hc; try discriminate Hc; reflexivity. Qed.

Lemma stripSign_digit c s : isDigit c = true -> stripSign (String c s) = (1, String c s).
Proof. ascii_cases c; intros Hc; try discriminate Hc; reflexivity. Qed.

Lemma stripPrefix_digits s : allChars isDigit s = true -> stripPrefix s = (10, s).
Proof.
  destruct s as [|c s]; [done|]. simpl. intros [Hc Hs]%andb_true_iff.
  ascii_cases c; try discriminate Hc; try reflexivity.
  destruct s as [|c2 s]; [done|]. simpl in Hs. apply andb_true_iff in Hs as [Hc2 _].
  ascii_cases c2; try discriminate Hc2; reflexivity.
Qed.

Lemma fmap_mul_1 (o : option Z) : Z.mul 1 <$> o = o.
Proof. destruct o as [z|]; simpl; [|done]. by destruct z. Qed.

Lemma parseInt_digits s : allChars isDigit s = true -> parseInt s = parseDigits 10 s None.
Proof.
  intros Hs. unfold parseInt. destruct s as [|c s]; [done|].
  pose proof Hs as Hs'. simpl in Hs'. apply andb_true_iff in Hs' as [Hc _].
  simpl trimStart. rewrite (isDigit_not_space c Hc), (stripSign_digit c s Hc).
  rewrite (stripPrefix_digits _ Hs). apply fmap_mul_1.
Qed.

Lemma parseInt_toString n : 0 <= n -> parseInt (toString n) = Some n.
Proof.
  intros Hn. rewrite parseInt_digits by by apply toString_digits.
  by apply parseDigits_toString.
Qed.

(** *** [parseInt] of a string without a minus sign is not negative *)

Lemma digitValue_nonneg c d : digitValue c = Some d -> 0 <= d.
Proof.
  unfold digitValue. pose proof (N2Z.is_nonneg (N_of_ascii c)).
  repeat case_match; intros [= <-]; lia.
Qed.

Lemma parseDigits_nonneg R s acc r :
  0 <= R -> (forall a, acc = Some a -> 0 <= a) ->
  parseDigits R s acc = Some r -> 0 <= r.
Proof.
  intros HR. revert acc. induction s as [|c s IH]; intros acc Hacc; simpl.
  - intros ->. by apply Hacc.
  - destruct (digitValue c) as [d|] eqn:Hd; [|intros ->; by apply Hacc].
    apply digitValue_nonneg in Hd. case_match; [|intros ->; by apply Hacc].
    apply IH. intros a [= <-]. destruct acc as [a0|]; simpl.
    + specialize (Hacc a0 eq_refl). nia.
    + lia.
Qed.

Lemma trimStart_allChars P s : allChars P s = true -> allChars P (trimStart s) = true.
Proof.
  induction s as [|c s IH]; simpl; [done|]. intros Hs.
  case_match; [|done]. apply andb_true_iff in Hs as [_ ?]. auto.
Qed.

Lemma stripSign_no_minus s : allChars (isNot "-") s = true -> (stripSign s).1 = 1.
Proof.
  destruct s as [|c s]; [done|]. simpl. intros [Hc _]%andb_true_iff.
  ascii_cases c; try discriminate Hc; reflexivity.
Qed.

Lemma stripPrefix_radix s : 0 <= (stripPrefix s).1.
Proof.
  destruct s as [|c s]; [done|]. ascii_cases c; try done.
  destruct s as [|c2 s]; [done|]. ascii_cases c2; done.
Qed.

Lemma parseInt_nonneg s k :
  allChars (isNot "-") s = true -> parseInt s = Some k -> 0 <= k.
Proof.
  intros Hs%(trimStart_allChars _ s). unfold parseInt.
  pose proof (stripSign_no_minus _ Hs) as Hsign.
  destruct (stripSign (trimStart s)) as [sign s1]. simpl in Hsign. subst sign.
  pose proof (stripPrefix_radix s1) as HR.
  destruct (stripPrefix s1) as [R s2]. simpl in HR.
  rewrite fmap_mul_1. intros Hk. eapply parseDigits_nonneg; [done| |done]. done.
Qed.

(** *** [split] *)

Lemma split_nonnil sep s : split sep s <> [].
Proof. destruct s as [|c s]; simpl; [done|]. repeat case_match; done. Qed.

Lemma split_app sep a b :
  allChars (isNot sep) a = true ->
  split sep (a +:+ String sep b) = a :: split sep b.
Proof.
  induction a as [|c a IH]; simpl.
  - intros _. by rewrite Ascii.eqb_refl.
  - intros [Hc Ha]%andb_true_iff. unfold isNot in Hc.
    apply negb_true_iff in Hc. rewrite Hc, (IH Ha). done.
Qed.

Lemma split_tokens sep s :
  Forall (fun t => allChars (isNot sep) t = true) (split sep s).
Proof.
  induction s as [|c s IH]; simpl; [by repeat constructor|].
  destruct (Ascii.eqb c sep) eqn:Hc; [by constructor|].
  pose proof (split_nonnil sep s) as Hne.
  destruct (split sep s) as [|t ts]; [done|].
  inversion_clear IH. constructor; [|done]. simpl. unfold isNot at 1. by rewrite Hc.
Qed.

Lemma parseIntAt1_nonneg s k : parseIntAt1 (split "-" s) = Some k -> 0 <= k.
Proof.
  unfold parseIntAt1. pose proof (split_tokens "-" s) as Htok.
  destruct (split "-" s !! 1%nat) as [t|] eqn:Ht; simpl; [|done].
  apply parseInt_nonneg. eapply Forall_lookup_1 in Htok; done.
Qed.

Lemma digits_no_char (x : ascii) s :
  isDigit x = false -> allChars isDigit s = true -> allChars (isNot x) s = true.
Proof.
  intros Hx. apply allChars_weaken. intros c Hc. unfold isNot.
  apply negb_true_iff. destruct (Ascii.eqb_spec c x) as [->|]; [congruence|done].
Qed.

End JSFacts.

(** * Facts about the organizer *)

Module OrganizerFacts.
Import JS JSFacts Organizer.

Section Facts.
Context `{PDFLib}.

(** *** Identities and the index [savePdf] reads off them *)

Lemma split_sep_free sep a : allChars (isNot sep) a = true -> split sep a = [a].
Proof.
  induction a as [|c a IH]; simpl; [done|].
  intros [Hc Ha]%andb_true_iff. unfold isNot in Hc. apply negb_true_iff in Hc.
  by rewrite Hc, (IH Ha).
Qed.

Lemma split_loaded_id i :
  0 <= i -> split "-" ("page-" +:+ toString i) = ["page"; toString i].
Proof.
  intros Hi. change ("page-" +:+ toString i) with ("page" +:+ String "-" (toString i)).
  rewrite split_app by done. f_equal. apply split_sep_free.
  apply digits_no_char; [done|]. by apply toString_digits.
Qed.

Lemma split_stamped_id now rest :
  0 <= now ->
  split "-" ("page-" +:+ toString now +:+ "-" +:+ rest)
  = "page" :: toString now :: split "-" rest.
Proof.
  intros Hn.
  change ("page-" +:+ toString now +:+ "-" +:+ rest)
    with ("page" +:+ String "-" (toString now +:+ String "-" rest)).
  rewrite split_app by done. f_equal. apply split_app.
  apply digits_no_char; [done|]. by apply toString_digits.
Qed.

Lemma entryIndex_loaded page i :
  0 <= i -> id page = "page-" +:+ toString i -> entryIndex page = Some i.
Proof.
  intros Hi Hid. unfold entryIndex, parseIntAt1. rewrite Hid, split_loaded_id by done.
  simpl. by apply parseInt_toString.
Qed.

Lemma entryIndex_stamped page now rest :
  0 <= now -> id page = "page-" +:+ toString now +:+ "-" +:+ rest ->
  entryIndex page = Some now.
Proof.
  intros Hn Hid. unfold entryIndex, parseIntAt1. rewrite Hid, split_stamped_id by done.
  simpl. by apply parseInt_toString.
Qed.


Lemma entryIndex_nonneg page k : entryIndex page = Some k -> 0 <= k.
Proof. apply parseIntAt1_nonneg. Qed.

(** *** The loop of [savePdf] *)

Lemma savePdf_loop_invalid originalPdf page rest out :
  validIndex originalPdf page = false ->
  savePdf_loop originalPdf (page :: rest) out = savePdf_loop originalPdf rest out.
Proof.
  unfold validIndex, entryIndex. simpl.
  destruct (parseIntAt1 _) as [k|]; [|done]. by intros ->.
Qed.

Lemma savePdf_loop_valid originalPdf page rest out :
  validIndex originalPdf page = true ->
  exists k p, entryIndex page = Some k /\ at_index originalPdf k = Some p /\
    savePdf_loop originalPdf (page :: rest) out
    = savePdf_loop originalPdf rest (out ++ [p]).
Proof.
  unfold validIndex. destruct (entryIndex page) as [k|] eqn:Hk; [|done].
  intros Hlt%Z.ltb_lt. pose proof (entryIndex_nonneg _ _ Hk) as H0.
  unfold getPageCount in Hlt.
  destruct (lookup_lt_is_Some_2 originalPdf (Z.to_nat k)) as [p Hp]; [lia|].
  assert (at_index originalPdf k = Some p) as Hat.
  { unfold at_index. by rewrite (proj2 (Z.ltb_ge _ _) H0). }
  exists k, p. split_and!; [done..|]. simpl. unfold entryIndex in Hk. rewrite Hk.
  unfold getPageCount. rewrite (proj2 (Z.ltb_lt _ _) Hlt).
  unfold copyPage. by rewrite Hat.
Qed.

(** The loop never throws: it appends, in order, the page each valid entry
    names. *)
Lemma savePdf_loop_spec originalPdf ps out :
  exists copied,
    savePdf_loop originalPdf ps out = Some (out ++ copied) /\
    Forall2 (fun page p => exists k, entryIndex page = Some k /\
                                     at_index originalPdf k = Some p)
            (filter (fun page => validIndex originalPdf page = true) ps) copied.
Proof.
  revert out. induction ps as [|page rest IH]; intros out.
  - exists []. split; [by rewrite app_nil_r|constructor].
  - destruct (validIndex originalPdf page) eqn:Hv.
    + destruct (savePdf_loop_valid originalPdf page rest out Hv) as (k & p & Hk & Hp & ->).
      destruct (IH (out ++ [p])) as (copied & -> & HF).
      exists (p :: copied). split; [by rewrite <- app_assoc|].
      rewrite filter_cons_True by done. constructor; eauto.
    + rewrite savePdf_loop_invalid by done.
      destruct (IH out) as (copied & -> & HF). exists copied. split; [done|].
      rewrite filter_cons_False; [done|]. by rewrite Hv.
Qed.


(** *** [splice] *)

Lemma splice_insert {A} (a : list A) start items :
  exists k, (k <= length a)%nat /\
    (0 <= start <= Z.of_nat (length a) -> k = Z.to_nat start) /\
    (splice a start 0 items).2 = take k a ++ items ++ drop k a.
Proof.
  unfold splice. simpl.
  set (len := Z.of_nat (length a)).
  set (s := if start <? 0 then Z.max (len + start) 0 else Z.min start len).
  assert (0 <= s <= len) as Hs by (subst s len; case_match; lia).
  exists (Z.to_nat s). split_and!.
  - subst len. lia.
  - intros Hr. subst s. destruct (Z.ltb_spec start 0); [lia|]. f_equal. lia.
  - do 3 f_equal. lia.
Qed.

Lemma splice_remove {A} (a : list A) (i : nat) x :
  a !! i = Some x -> splice a (Z.of_nat i) 1 [] = ([x], delete i a).
Proof.
  intros Hx. pose proof (lookup_lt_Some _ _ _ Hx) as Hlt. unfold splice.
  destruct (Z.ltb_spec (Z.of_nat i) 0); [lia|].
  replace (Z.min (Z.of_nat i) (Z.of_nat (length a))) with (Z.of_nat i) by lia.
  replace (Z.min (Z.max 1 0) (Z.of_nat (length a) - Z.of_nat i)) with 1 by lia.
  rewrite Nat2Z.id. replace (Z.to_nat (Z.of_nat i + 1)) with (S i) by lia.
  f_equal.
  - rewrite (drop_S _ _ _ Hx). done.
  - simpl. by rewrite delete_take_drop.
Qed.

(** *** Entries that [duplicatePage] and [addPagesFromFile] create *)

Lemma duplicatePage_eq now rnd prev index ps' :
  duplicatePage now rnd prev index = Some ps' ->
  exists (i : nat) page,
    index = Z.of_nat i /\ prev !! i = Some page /\
    ps' = take (S i) prev
          ++ [ {| id := "page-" +:+ toString now +:+ "-" +:+ rnd;
                  pageNumber := pageNumber page;
                  thumbnail := thumbnail page;
                  originalIndex := originalIndex page |} ]
          ++ drop (S i) prev.
Proof.
  unfold duplicatePage, at_index. destruct (Z.ltb_spec index 0); [done|].
  destruct (prev !! Z.to_nat index) as [page|] eqn:Hp; [|done].
  cbn [mbind option_bind]. intros Heq. exists (Z.to_nat index), page.
  split_and!; [lia|done|].
  pose proof (lookup_lt_Some _ _ _ Hp) as Hlt.
  destruct (splice_insert prev (index + 1)
              [ {| id := "page-" +:+ toString now +:+ "-" +:+ rnd;
                   pageNumber := pageNumber page;
                   thumbnail := thumbnail page;
                   originalIndex := originalIndex page |} ]) as (k & _ & Hk & Hs).
  rewrite Hs in Heq. apply (inj Some) in Heq. subst ps'.
  rewrite Hk by lia. by replace (Z.to_nat (index + 1)) with (S (Z.to_nat index)) by lia.
Qed.


Lemma handleFile_loop_ids pdf n i acc l :
  handleFile_loop pdf n i acc = Some l ->
  exists tail, l = acc ++ tail /\
    Forall2 (fun p (k : nat) => id p = "page-" +:+ toString (i + Z.of_nat k) /\
                                originalIndex p = i + Z.of_nat k)
            tail (seq 0 n).
Proof.
  revert i acc. induction n as [|n IH]; intros i acc; simpl.
  - intros [= <-]. exists []. split; [by rewrite app_nil_r|constructor].
  - destruct (generateThumbnail pdf i) as [t|]; [|done]. simpl.
    intros (tail & -> & HF)%IH. eexists (_ :: tail).
    split; [by rewrite <- app_assoc|].
    constructor; [simpl; by rewrite Z.add_0_r|].
    rewrite <- fmap_S_seq. apply Forall2_fmap_r.
    eapply Forall2_impl; [exact HF|]. intros p k. simpl.
    by replace (i + 1 + Z.of_nat k) with (i + Z.of_nat (S k)) by lia.
Qed.

(** Saving the entries of a fresh load copies the pages [i], [i+1], ... *)
Lemma savePdf_loop_loaded originalPdf ps (i n : nat) out :
  Forall2 (fun p (k : nat) => id p = "page-" +:+ toString (Z.of_nat i + Z.of_nat k) /\
                              originalIndex p = Z.of_nat i + Z.of_nat k)
          ps (seq 0 n) ->
  (i + n <= length originalPdf)%nat ->
  savePdf_loop originalPdf ps out = Some (out ++ take n (drop i originalPdf)).
Proof.
  revert ps i out. induction n as [|n IH]; intros ps i out HF Hle.
  - inversion HF; subst. simpl. by rewrite take_0, app_nil_r.
  - simpl in HF. inversion HF as [|p k ps' ks [Hid _] HF']; subst.
    rewrite Z.add_0_r in Hid.
    assert (validIndex originalPdf p = true) as Hv.
    { unfold validIndex. rewrite (entryIndex_loaded p (Z.of_nat i)) by (lia || done).
      apply Z.ltb_lt. unfold getPageCount. lia. }
    destruct (savePdf_loop_valid originalPdf p ps' out Hv) as (k & x & Hk & Hx & ->).
    rewrite (entryIndex_loaded p (Z.of_nat i)) in Hk by (lia || done).
    injection Hk as <-. unfold at_index in Hx.
    destruct (Z.ltb_spec (Z.of_nat i) 0); [lia|]. rewrite Nat2Z.id in Hx.
    rewrite (IH ps' (S i)); [| |lia].
    + rewrite (drop_S _ _ _ Hx). simpl. by rewrite <- app_assoc.
    + rewrite <- fmap_S_seq in HF'. apply Forall2_fmap_r in HF'.
      eapply Forall2_impl; [exact HF'|]. intros q j. simpl.
      by replace (Z.of_nat (S i) + Z.of_nat j) with (Z.of_nat i + Z.of_nat (S j)) by lia.
Qed.

(** *** Saving *)




Lemma handleFile_ok (st : State) file doc :
  load (arrayBuffer file) = Some doc -> (handleFile st file).2 = None ->
  exists pagesList,
    (handleFile st file).1
    = {| pdfFile := Some file; pdfDoc := Some doc; pages := pagesList;
         selectedPages := ∅; draggedPageId := draggedPageId st |} /\
    Forall2 (fun p (k : nat) => id p = "page-" +:+ toString (0 + Z.of_nat k) /\
                                originalIndex p = 0 + Z.of_nat k)
            pagesList (seq 0 (length doc)).
Proof.
  intros Hl. unfold handleFile. rewrite Hl.
  destruct (handleFile_loop doc (length doc) 0 []) as [pagesList|] eqn:Hloop; [|done].
  intros _. apply handleFile_loop_ids in Hloop as (tail & -> & HF).
  by exists tail.
Qed.

(** C4: after a load that raised no alert, of a file the library parses to a
    document of at least one page, [savePdf] hands the serializer a document
    equal to the loaded one (the same pages in the same order) and delivers
    its serialization. *)
Theorem load_then_save_round_trip (st : State) file doc :
  load (arrayBuffer file) = Some doc -> (1 <= length doc)%nat ->
  (handleFile st file).2 = None ->
  length (pages (handleFile st file).1) = length doc /\
  savePdf_newPdf (handleFile st file).1 = Some doc /\
  savePdf (handleFile st file).1
  = match save doc with
    | Some blob => Downloaded ("organized-" +:+ name file) blob
    | None => Alerted
    end.
Proof.
  intros Hl Hlen Hok.
  destruct (handleFile_ok st file doc Hl Hok) as (pagesList & -> & HF).
  assert (length pagesList = length doc) as Hlt.
  { by rewrite (Forall2_length _ _ _ HF), length_seq. }
  assert (savePdf_newPdf
            {| pdfFile := Some file; pdfDoc := Some doc; pages := pagesList;
               selectedPages := ∅; draggedPageId := draggedPageId st |} = Some doc) as Hnew.
  { unfold savePdf_newPdf. cbn [pdfFile pages mbind option_bind]. rewrite Hl.
    cbn [mbind option_bind].
    rewrite (savePdf_loop_loaded doc pagesList 0 (length doc)); [|done|lia].
    by rewrite drop_0, firstn_all. }
  split_and!; [done..|]. unfold savePdf. rewrite Hnew. cbn [pdfDoc pages pdfFile].
  rewrite decide_False by lia.
  cbn [mbind option_bind]. by destruct (save doc).
Qed.

(** The outcomes of [savePdf].  It ends in exactly one of three ways.  It returns at
    its guard, delivering nothing and raising nothing, when no document is
    loaded or the sequence is empty; or it raises its alert and delivers
    nothing, when the original file is missing or does not parse or the
    serializer throws; or it delivers one file, [organized-] followed by the
    loaded file's name, whose document holds in sequence order one page for
    each entry that passes the index guard of the loop, the other entries
    being left out without an error. *)
Theorem savePdf_outcomes (st : State) :
  (savePdf st = NotStarted /\ (pdfDoc st = None \/ pages st = [])) \/
  (savePdf st = Alerted /\ pdfDoc st <> None /\ pages st <> [] /\
     (pdfFile st = None \/
      (exists file, pdfFile st = Some file /\ load (arrayBuffer file) = None) \/
      (exists newPdf, savePdf_newPdf st = Some newPdf /\ save newPdf = None))) \/
  (exists file originalPdf newPdf blob,
     pdfDoc st <> None /\ pages st <> [] /\
     pdfFile st = Some file /\ load (arrayBuffer file) = Some originalPdf /\
     savePdf_newPdf st = Some newPdf /\ save newPdf = Some blob /\
     savePdf st = Downloaded ("organized-" +:+ name file) blob /\
     Forall2 (fun page p => exists k, entryIndex page = Some k /\
                                      at_index originalPdf k = Some p)
             (filter (fun page => validIndex originalPdf page = true) (pages st))
             newPdf /\
     length newPdf
     = length (filter (fun page => validIndex originalPdf page = true) (pages st))).
Proof.
  unfold savePdf. destruct (pdfDoc st) as [d|] eqn:Hd; [|left; auto].
  case_decide as Hp; [left; split; [done|]; right; by destruct (pages st)|].
  assert (pages st <> []) as Hne by (by intros Hnil; rewrite Hnil in Hp).
  right. destruct (pdfFile st) as [file|] eqn:Hf.
  2:{ left. unfold savePdf_newPdf. rewrite Hf. simpl. auto. }
  destruct (load (arrayBuffer file)) as [originalPdf|] eqn:Hl.
  2:{ left. unfold savePdf_newPdf. rewrite Hf. simpl. rewrite Hl. simpl.
      split_and!; [done..|]. right; left. eauto. }
  destruct (savePdf_loop_spec originalPdf (pages st) create) as (newPdf & Hloop & HF).
  assert (savePdf_newPdf st = Some newPdf) as Hnew.
  { unfold savePdf_newPdf. rewrite Hf. simpl. rewrite Hl. simpl. by rewrite Hloop. }
  rewrite Hnew. simpl. destruct (save newPdf) as [blob|] eqn:Hs.
  - right. exists file, originalPdf, newPdf, blob. split_and!; try done.
    symmetry. by apply Forall2_length in HF.
  - left. split_and!; [done..|]. right; right. eauto.
Qed.

(** *** Selection and deletion *)

Lemma filter_complement_length {A} (P : A -> Prop) `{forall x, Decision (P x)} (l : list A) :
  (length (filter P l) + length (filter (fun x => ~ P x) l) = length l)%nat.
Proof.
  induction l as [|x l IH]; [done|].
  destruct (decide (P x)).
  - rewrite filter_cons_True, (filter_cons_False (fun x => ~ P x)) by auto. simpl. lia.
  - rewrite filter_cons_False, (filter_cons_True (fun x => ~ P x)) by auto. simpl. lia.
Qed.

Lemma selected_entries_length (ps : list PdfPage) (sel : gset string) :
  NoDup (id <$> ps) -> (forall x, x ∈ sel -> x ∈ id <$> ps) ->
  length (filter (fun page => id page ∈ sel) ps) = size sel.
Proof.
  intros Hnd Hsub.
  rewrite <- (length_fmap id). unfold size, set_size. simpl.
  apply Permutation_length, NoDup_Permutation.
  - eapply sublist_NoDup; [exact Hnd|]. apply fmap_sublist, sublist_filter.
  - apply NoDup_elements.
  - intros x. rewrite elem_of_elements, list_elem_of_fmap. split.
    + intros (p & -> & [Hp _]%list_elem_of_filter). done.
    + intros Hx. pose proof (Hsub x Hx) as (p & -> & Hp)%list_elem_of_fmap.
      exists p. split; [done|]. by apply list_elem_of_filter.
Qed.

Lemma filter_all {A} (P : A -> Prop) `{forall x, Decision (P x)} (l : list A) :
  (forall x, x ∈ l -> P x) -> filter P l = l.
Proof.
  induction l as [|x l IH]; intros HP; [done|].
  rewrite filter_cons_True by (apply HP; left). f_equal. apply IH.
  intros y Hy. apply HP. by right.
Qed.

(** C1 (amended): with at least one entry, a selection as large as the
    sequence makes [deleteSelectedPages] raise its alert and leave sequence
    and selection as they were; a selection that has one element less than
    the sequence, when the entries' identities are pairwise distinct and
    every selected identity is the identity of an entry, is deleted without
    an alert and leaves exactly one entry, an unselected one. *)
Theorem delete_guard (st : State) :
  (1 <= length (pages st))%nat ->
  (size (selectedPages st) = length (pages st) ->
     deleteSelectedPages st = (st, Some AlertDeleteAll)) /\
  (NoDup (id <$> pages st) -> selection_consistent st ->
   size (selectedPages st) = (length (pages st) - 1)%nat ->
     (deleteSelectedPages st).2 = None /\
     length (pages (deleteSelectedPages st).1) = 1%nat /\
     Forall (fun page => id page ∉ selectedPages st) (pages (deleteSelectedPages st).1)).
Proof.
  intros HN. split.
  - intros Hsize. unfold deleteSelectedPages.
    rewrite decide_False by lia. by rewrite decide_True.
  - intros Hnd Hcons Hsize. unfold deleteSelectedPages.
    destruct (decide (size (selectedPages st) = 0%nat)) as [H0|H0]; simpl.
    + split_and!; [done|lia|].
      apply size_empty_inv in H0. apply Forall_forall. intros p _. set_solver.
    + rewrite decide_False by lia. simpl. split_and!; [done| |].
      * pose proof (filter_complement_length
                      (fun page => id page ∈ selectedPages st) (pages st)) as Hc.
        rewrite (selected_entries_length _ _ Hnd Hcons) in Hc.
        unfold not in *. lia.
      * apply Forall_forall. by intros p [? _]%list_elem_of_filter.
Qed.

(** C6: when the library cannot parse the file, [handleFile] raises its alert
    and the page sequence is the one before the call, and
    [addPagesFromFile] raises its alert and changes nothing at all. *)
Theorem load_failure_keeps_pages (st : State) file rest now :
  load (arrayBuffer file) = None ->
  (handleFile st file).2 = Some AlertLoad /\
  pages (handleFile st file).1 = pages st /\
  addPagesFromFile st (Some (file :: rest)) now = (st, Some AlertAdd).
Proof.
  intros Hl. unfold handleFile, addPagesFromFile. by rewrite Hl.
Qed.

(** Whatever makes a load raise its alert, no prefix of the new pages is
    kept. *)
Lemma load_alert_keeps_pages (st : State) file files now a :
  ((handleFile st file).2 = Some a -> pages (handleFile st file).1 = pages st) /\
  ((addPagesFromFile st files now).2 = Some a -> (addPagesFromFile st files now).1 = st).
Proof.
  split.
  - unfold handleFile. destruct (load (arrayBuffer file)) as [pdf|]; [|done].
    by destruct (handleFile_loop _ _ _ _).
  - unfold addPagesFromFile. destruct files as [[|f fs]|]; [done| |done].
    destruct (load (arrayBuffer f)) as [pdf|]; [|done].
    by destruct (addPages_loop _ _ _ _ _ _).
Qed.

(** C7 (amended): [togglePageSelection] toggles the membership of the
    identity it is given, whether or not an entry has that identity, and
    changes nothing else: no other membership and not the sequence. *)
Theorem togglePageSelection_toggles (st : State) (v : string) :
  (forall x, x ∈ selectedPages (togglePageSelection st v) <->
             if decide (x = v) then x ∉ selectedPages st else x ∈ selectedPages st) /\
  pages (togglePageSelection st v) = pages st.
Proof.
  split; [|done]. intros x. unfold togglePageSelection. simpl.
  destruct (decide (v ∈ selectedPages st)); destruct (decide (x = v)); set_solver.
Qed.

(** *** Moving *)

Lemma splice_Permutation {A} (a : list A) start deleteCount items :
  (splice a start deleteCount items).1 ++ (splice a start deleteCount items).2
  ≡ₚ a ++ items.
Proof.
  unfold splice. cbn [fst snd].
  set (len := Z.of_nat (length a)).
  set (s := if start <? 0 then Z.max (len + start) 0 else Z.min start len).
  assert (0 <= s <= len) as Hs by (subst s len; case_match; lia).
  set (dc := Z.min (Z.max deleteCount 0) (len - s)).
  assert (0 <= dc) as Hdc by (subst dc; lia).
  replace (Z.to_nat (s + dc)) with (Z.to_nat s + Z.to_nat dc)%nat by lia.
  rewrite <- (take_drop (Z.to_nat s) a) at 4.
  rewrite <- (take_drop (Z.to_nat dc) (drop (Z.to_nat s) a)) at 2.
  rewrite drop_drop. solve_Permutation.
Qed.

Lemma movePage_in_range {A} (l : list A) (i t : nat) x :
  l !! i = Some x -> (t < length l)%nat ->
  movePage l (Z.of_nat i) (Z.of_nat t)
  = Some (take t (delete i l) ++ x :: drop t (delete i l)).
Proof.
  intros Hx Ht. unfold movePage.
  destruct (Z.ltb_spec (Z.of_nat t) 0); [lia|].
  destruct (Z.geb_spec (Z.of_nat t) (Z.of_nat (length l))); [lia|]. simpl orb. cbv iota.
  rewrite (splice_remove l i x Hx).
  pose proof (lookup_lt_Some _ _ _ Hx) as Hi.
  destruct (splice_insert (delete i l) (Z.of_nat t) [x]) as (k & _ & Hk & ->).
  rewrite Hk, Nat2Z.id; [done|]. rewrite length_delete by eauto. lia.
Qed.

Lemma movePage_out_of_range {A} (l : list A) (i t : Z) :
  ~ (0 <= t < Z.of_nat (length l)) -> movePage l i t = Some l.
Proof.
  intros Ht. unfold movePage.
  destruct (Z.ltb_spec t 0); [done|].
  destruct (Z.geb_spec t (Z.of_nat (length l))); [done|lia].
Qed.

Lemma insert_delete_same {A} (l : list A) (i : nat) x :
  l !! i = Some x -> take i (delete i l) ++ x :: drop i (delete i l) = l.
Proof.
  intros Hx. pose proof (lookup_lt_Some _ _ _ Hx) as Hi.
  rewrite delete_take_drop, take_app_le, drop_app_ge by (rewrite length_take; lia).
  rewrite take_take, Nat.min_id, length_take_le, Nat.sub_diag, drop_0 by lia.
  rewrite <- (drop_S _ _ _ Hx). apply take_drop.
Qed.

Lemma insert_at_lookup {A} (l : list A) (t : nat) x :
  (t <= length l)%nat -> (take t l ++ x :: drop t l) !! t = Some x.
Proof.
  intros Ht. rewrite lookup_app_r by (rewrite length_take; lia).
  by rewrite length_take_le, Nat.sub_diag by lia.
Qed.

Lemma insert_at_delete {A} (l : list A) (t : nat) x :
  (t <= length l)%nat -> delete t (take t l ++ x :: drop t l) = l.
Proof.
  intros Ht. rewrite delete_take_drop.
  rewrite take_app_le, take_take, Nat.min_id by (rewrite length_take; lia).
  rewrite drop_app_ge by (rewrite length_take; lia).
  rewrite length_take_le by lia. replace (S t - t)%nat with 1%nat by lia.
  simpl. rewrite drop_0. apply take_drop.
Qed.

Lemma movePage_Some {A} (l : list A) (i t : Z) :
  0 <= i < Z.of_nat (length l) ->
  exists l', movePage l i t = Some l' /\ length l' = length l /\ l' ≡ₚ l.
Proof.
  intros Hi. destruct (lookup_lt_is_Some_2 l (Z.to_nat i)) as [x Hx]; [lia|].
  destruct (decide (0 <= t < Z.of_nat (length l))) as [Ht|Ht].
  - pose proof (movePage_in_range l (Z.to_nat i) (Z.to_nat t) x Hx) as Hm.
    rewrite !Z2Nat.id in Hm by lia. rewrite Hm by lia. eexists. split; [done|].
    assert (length (delete (Z.to_nat i) l) = (length l - 1)%nat) as Hd.
    { rewrite length_delete by eauto. lia. }
    split.
    + rewrite length_app, length_take. simpl. rewrite length_drop. lia.
    + rewrite <- Permutation_middle, take_drop.
      rewrite delete_take_drop, Permutation_middle.
      by rewrite <- (drop_S _ _ _ Hx), take_drop.
  - rewrite movePage_out_of_range by done. by exists l.
Qed.

Lemma splice_fmap {A B} (f : A -> B) (a : list A) start dc items :
  splice (f <$> a) start dc (f <$> items)
  = ((f <$> (splice a start dc items).1), (f <$> (splice a start dc items).2)).
Proof.
  unfold splice. rewrite length_fmap. cbn [fst snd].
  by rewrite !fmap_app, !fmap_take, !fmap_drop.
Qed.

(** A move acts on positions only: it commutes with relabelling. *)
Lemma movePage_fmap {A B} (f : A -> B) (l : list A) i t :
  movePage (f <$> l) i t = (fun l' : list A => f <$> l') <$> movePage l i t.
Proof.
  unfold movePage. rewrite length_fmap. case_match; [done|].
  rewrite (splice_fmap f l i 1 [] : splice (f <$> l) i 1 [] = _).
  destruct (splice l i 1 []) as [removed newPages]. cbn [fst snd].
  destruct removed as [|x removed]; [done|].
  change (f <$> x :: removed) with (f x :: (f <$> removed)). cbv iota.
  by rewrite (splice_fmap f newPages t 0 [x] : splice (f <$> newPages) t 0 [f x] = _).
Qed.

Lemma movePages_fmap {A B} (f : A -> B) (l : list A) ms :
  movePages (f <$> l) ms = (fun l' : list A => f <$> l') <$> movePages l ms.
Proof.
  revert l. induction ms as [|[i t] ms IH]; intros l; [done|]. simpl.
  rewrite movePage_fmap. destruct (movePage l i t) as [l'|]; [|done]. simpl. apply IH.
Qed.

Lemma movePages_app {A} (l : list A) ms1 ms2 :
  movePages l (ms1 ++ ms2) = l' ← movePages l ms1; movePages l' ms2.
Proof.
  revert l. induction ms1 as [|[i t] ms1 IH]; intros l; [done|]. simpl.
  destruct (movePage l i t) as [l'|]; [|done]. simpl. apply IH.
Qed.

Lemma movePages_Some {A} (l : list A) ms :
  Forall (fun m => 0 <= m.1 < Z.of_nat (length l)) ms ->
  exists l', movePages l ms = Some l' /\ length l' = length l /\ l' ≡ₚ l.
Proof.
  revert l. induction ms as [|[i t] ms IH]; intros l HF.
  - by exists l.
  - inversion HF as [|m ms' Hi HF']; subst. simpl in Hi.
    destruct (movePage_Some l i t Hi) as (l1 & Hm & Hlen & Hp).
    simpl. rewrite Hm. simpl. destruct (IH l1) as (l' & -> & Hlen' & Hp').
    { by rewrite Hlen. }
    exists l'. split_and!; [done|congruence|by etrans].
Qed.

Lemma labelled_list {A} (l : list A) :
  Some <$> l = (fun k => l !! k) <$> seq 0 (length l).
Proof.
  apply list_eq. intros k. rewrite !list_lookup_fmap.
  destruct (decide (k < length l)%nat) as [Hk|Hk].
  - rewrite lookup_seq_lt by done. simpl.
    by destruct (lookup_lt_is_Some_2 l k Hk) as [x ->].
  - rewrite lookup_seq_ge, lookup_ge_None_2 by lia. done.
Qed.

(** C5: [movePage] of the entry at position [i] to a target inside the
    array puts the entry at the target and leaves the other entries in their
    order (deleting the moved entry from the result gives the original
    without it); a target outside the array, or equal to [i], leaves the
    array as it was; and a sequence of moves is the composition of its
    moves: it permutes the array exactly as the same moves permute the
    labels [0 .. length-1], whatever the entries are. *)
Theorem movePage_moves {A} (l : list A) (i : nat) (x : A) :
  l !! i = Some x ->
  (forall t : nat, (t < length l)%nat ->
     exists l', movePage l (Z.of_nat i) (Z.of_nat t) = Some l' /\
       l' !! t = Some x /\ delete t l' = delete i l /\ l' ≡ₚ l) /\
  (forall t : Z, ~ (0 <= t < Z.of_nat (length l)) ->
     movePage l (Z.of_nat i) t = Some l) /\
  movePage l (Z.of_nat i) (Z.of_nat i) = Some l /\
  (forall ms, Forall (fun m => 0 <= m.1 < Z.of_nat (length l)) ms ->
     exists l' σ, movePages l ms = Some l' /\
       movePages (seq 0 (length l)) ms = Some σ /\
       σ ≡ₚ seq 0 (length l) /\
       forall k, l' !! k = σ !! k ≫= (fun j => l !! j)) /\
  (forall ms1 ms2,
     movePages l (ms1 ++ ms2) = l1 ← movePages l ms1; movePages l1 ms2).
Proof.
  intros Hx. pose proof (lookup_lt_Some _ _ _ Hx) as Hi. split_and!.
  - intros t Ht. rewrite (movePage_in_range l i t x Hx Ht).
    assert (t <= length (delete i l))%nat as Ht'.
    { rewrite length_delete by eauto. lia. }
    eexists. split_and!; [done|by apply insert_at_lookup|by apply insert_at_delete|].
    destruct (movePage_Some l (Z.of_nat i) (Z.of_nat t)) as (l' & Hm & _ & Hp); [lia|].
    rewrite (movePage_in_range l i t x Hx Ht) in Hm. by injection Hm as ->.
  - intros t Ht. by apply movePage_out_of_range.
  - rewrite (movePage_in_range l i i x Hx Hi). f_equal. by apply insert_delete_same.
  - intros ms HF.
    destruct (movePages_Some l ms HF) as (l' & Hl' & _ & _).
    destruct (movePages_Some (seq 0 (length l)) ms) as (σ & Hσ & _ & Hp).
    { by rewrite length_seq. }
    exists l', σ. split_and!; [done..|].
    pose proof (movePages_fmap Some l ms) as H1. rewrite Hl' in H1.
    rewrite labelled_list, movePages_fmap, Hσ in H1. simpl in H1.
    injection H1 as H1. intros k.
    apply (f_equal (fun a => a !! k)) in H1. rewrite !list_lookup_fmap in H1.
    destruct (σ !! k) as [j|], (l' !! k) as [y|]; simpl in *; congruence.
  - apply movePages_app.
Qed.

(** *** The selection invariant *)

Lemma selection_consistent_mono (st st' : State) :
  (forall x, x ∈ id <$> pages st -> x ∈ id <$> pages st') ->
  selectedPages st' ⊆ selectedPages st ->
  selection_consistent st -> selection_consistent st'.
Proof. unfold selection_consistent. intros Hp Hs Hc x Hx. apply Hp, Hc, Hs, Hx. Qed.

Lemma selection_consistent_subseteq (st : State) :
  selectedPages st ⊆ list_to_set (id <$> pages st) -> selection_consistent st.
Proof. intros Hsub x Hx. apply Hsub in Hx. by apply elem_of_list_to_set in Hx. Qed.

Lemma handleFile_selection (st : State) file : selectedPages (handleFile st file).1 = ∅.
Proof.
  unfold handleFile. destruct (load (arrayBuffer file)) as [pdf|]; [|done].
  by destruct (handleFile_loop _ _ _ _).
Qed.

Lemma splice_removed_length {A} (a : list A) start items :
  (length (splice a start 1 items).1 <= 1)%nat.
Proof. unfold splice. cbn [fst]. rewrite length_take. lia. Qed.

Lemma handlePageDrop_Permutation (st st' : State) dropIndex :
  handlePageDrop st dropIndex = Some st' ->
  pages st' ≡ₚ pages st /\ selectedPages st' = selectedPages st.
Proof.
  unfold handlePageDrop. destruct (draggedPageId st) as [dragged|]; [|by intros [= <-]].
  case_decide; [by intros [= <-]|].
  case_match; [by intros [= <-]|].
  pose proof (splice_Permutation (pages st) (findIndex dragged (pages st) 0) 1 []) as Hp.
  pose proof (splice_removed_length (pages st) (findIndex dragged (pages st) 0) []) as Hl.
  destruct (splice (pages st) _ 1 []) as [removed newPages]. cbn [fst snd] in Hp, Hl.
  destruct removed as [|draggedPage removed]; [done|].
  destruct removed; [|simpl in Hl; lia].
  destruct (splice_insert newPages
              (if findIndex dragged (pages st) 0 <? dropIndex
               then dropIndex - 1 else dropIndex) [draggedPage]) as (k & _ & _ & ->).
  intros Heq. apply (inj Some) in Heq. subst st'.
  split; [|done]. cbn [pages setDraggedPageId setPages].
  rewrite app_nil_r in Hp. rewrite <- Hp.
  rewrite <- (take_drop k newPages) at 3. solve_Permutation.
Qed.

Lemma findIndex_range x (ps : list PdfPage) i :
  findIndex x ps i = -1 \/ i <= findIndex x ps i < i + Z.of_nat (length ps).
Proof.
  revert i. induction ps as [|p ps IH]; intros i; simpl; [by left|].
  case_decide; [right; lia|]. destruct (IH (i + 1)) as [|]; [by left|right; lia].
Qed.

(** A drop on a card never leaves the typed model. *)
Lemma handlePageDrop_Some (st : State) dropIndex : is_Some (handlePageDrop st dropIndex).
Proof.
  unfold handlePageDrop. destruct (draggedPageId st) as [dragged|]; [|done].
  case_decide; [done|].
  destruct (_ || _) eqn:Hg; [done|].
  apply orb_false_iff in Hg as [Hne%Z.eqb_neq _].
  destruct (findIndex_range dragged (pages st) 0) as [|Hr]; [done|].
  destruct (lookup_lt_is_Some_2 (pages st) (Z.to_nat (findIndex dragged (pages st) 0)))
    as [x Hx]; [lia|].
  pose proof (splice_remove (pages st) _ x Hx) as Hs. rewrite Z2Nat.id in Hs by lia.
  by rewrite Hs.
Qed.

Lemma step_consistent (st st' : State) ev :
  selection_consistent st -> step st ev = Some st' -> selection_consistent st'.
Proof.
  intros Hc. unfold step.
  destruct ev as [files|files|index| |index|index tnow rnd|index|files tnow| |index|index],
           (pdfFile st) as [f0|] eqn:Hf; try done.
  - destruct files as [|f fs]; [by intros [= <-]|].
    case_decide; intros [= <-]; [|done].
    intros x. rewrite handleFile_selection. set_solver.
  - destruct files as [[|f fs]|]; try (by intros [= <-]). intros [= <-].
    intros x. rewrite handleFile_selection. set_solver.
  - destruct (pages st !! index) as [page|] eqn:Hp; [|done]. intros [= <-].
    intros x. unfold togglePageSelection. simpl. intros Hx.
    assert (x ∈ selectedPages st \/ x = id page) as [Hx' | ->]
      by (case_decide; set_solver).
    + by apply Hc.
    + apply list_elem_of_fmap. exists page. split; [done|].
      by eapply list_elem_of_lookup_2.
  - case_decide; [done|]. intros [= <-]. unfold deleteSelectedPages.
    rewrite decide_False by done. case_decide; [done|]. intros x. simpl. set_solver.
  - destruct (pages st !! index) as [page|] eqn:Hp; [|done]. simpl.
    case_decide; [done|].
    destruct (movePage_Some (pages st) (Z.of_nat index) (Z.of_nat index - 1))
      as (l' & -> & _ & Hperm).
    { apply lookup_lt_Some in Hp. lia. }
    intros [= <-]. apply (selection_consistent_mono st); [|reflexivity|done].
    intros x. simpl. by rewrite Hperm.
  - destruct (pages st !! index) as [page|] eqn:Hp; [|done]. simpl.
    destruct (duplicatePage tnow rnd (pages st) (Z.of_nat index)) as [ps'|] eqn:Hd; [|done].
    intros [= <-]. apply duplicatePage_eq in Hd as (i & page' & _ & _ & ->).
    apply (selection_consistent_mono st); [|reflexivity|done].
    intros x. simpl. rewrite <- (take_drop (S i) (pages st)) at 1.
    rewrite !fmap_app. set_solver.
  - destruct (pages st !! index) as [page|] eqn:Hp; [|done]. simpl.
    case_decide; [done|].
    destruct (movePage_Some (pages st) (Z.of_nat index) (Z.of_nat index + 1))
      as (l' & -> & _ & Hperm).
    { apply lookup_lt_Some in Hp. lia. }
    intros [= <-]. apply (selection_consistent_mono st); [|reflexivity|done].
    intros x. simpl. by rewrite Hperm.
  - intros [= <-]. unfold addPagesFromFile.
    destruct files as [[|f fs]|]; [done| |done].
    destruct (load (arrayBuffer f)) as [newPdf|]; [|done].
    destruct (addPages_loop _ _ _ _ _ _) as [newPages|]; [|done].
    apply (selection_consistent_mono st); [|reflexivity|done].
    intros x. simpl. rewrite fmap_app. set_solver.
  - intros [= <-]. intros x. simpl. set_solver.
  - destruct (pages st !! index) as [page|]; [|done]. by intros [= <-].
  - destruct (pages st !! index) as [page|]; [|done]. simpl.
    intros [Hperm Hsel]%handlePageDrop_Permutation.
    apply (selection_consistent_mono st); [|by rewrite Hsel|done].
    intros x. by rewrite Hperm.
Qed.

Lemma run_consistent (st st' : State) evs :
  selection_consistent st -> run st evs = Some st' -> selection_consistent st'.
Proof.
  revert st. induction evs as [|ev evs IH]; intros st Hc; simpl.
  - by intros [= <-].
  - destruct (step st ev) as [st1|] eqn:Hs; [|done]. simpl.
    apply IH. by eapply step_consistent.
Qed.

(** In the sessions of [run], where the user lets every load and addition
    finish before the next action, each selected identity belongs to an
    entry; and when [deleteSelectedPages] goes through there, removing the
    entries [E] whose identity is selected, no identity of [E] is selected
    afterwards, every other identity is selected afterwards just when it was
    before, and the selection is consistent again.  (With actions during a
    suspended load this fails, see module [Interleaved].) *)
Theorem selection_stays_consistent (st : State) :
  reachable st ->
  selection_consistent st /\
  forall st', deleteSelectedPages st = (st', None) ->
    pages st' = filter (fun page => id page ∉ selectedPages st) (pages st) /\
    (forall x, x ∈ id <$> filter (fun page => id page ∈ selectedPages st) (pages st) ->
               x ∉ selectedPages st') /\
    (forall x, x ∉ id <$> filter (fun page => id page ∈ selectedPages st) (pages st) ->
               (x ∈ selectedPages st' <-> x ∈ selectedPages st)) /\
    selection_consistent st'.
Proof.
  intros [evs Hrun].
  assert (selection_consistent st) as Hc.
  { eapply run_consistent; [|exact Hrun]. intros x. set_solver. }
  split; [done|]. intros st'. unfold deleteSelectedPages.
  assert (forall x, x ∈ selectedPages st ->
            x ∈ id <$> filter (fun page => id page ∈ selectedPages st) (pages st)) as Hsel.
  { intros x Hx. pose proof (Hc x Hx) as (p & -> & Hp)%list_elem_of_fmap.
    apply list_elem_of_fmap. exists p. split; [done|]. by apply list_elem_of_filter. }
  case_decide as H0.
  - intros [= <-]. apply size_empty_inv, leibniz_equiv in H0.
    split_and!; [|by rewrite H0|done|done].
    symmetry. apply filter_all. intros p _. rewrite H0. set_solver.
  - case_decide; [done|]. intros [= <-]. simpl.
    split_and!; [done|set_solver| |intros x; set_solver].
    intros x Hx. split; [set_solver|]. intros Hin. by apply Hsel in Hin.
Qed.

End Facts.
End OrganizerFacts.

(** * Facts about the names of the delivered files *)

Module NamingFacts.
Import JS JSFacts.

Lemma zeros_chars n : allChars isDigitOrSign (zeros n) = true.
Proof. induction n; simpl; auto. Qed.

Lemma padStart0_chars w n : allChars isDigitOrSign (padStart0 w (toString n)) = true.
Proof. unfold padStart0. by rewrite allChars_app, zeros_chars, toString_chars. Qed.

Lemma isoYear_chars y : allChars isDigitOrSign (isoYear y) = true.
Proof.
  unfold isoYear. case_match; [apply padStart0_chars|].
  rewrite allChars_app, padStart0_chars. by case_match.
Qed.

Lemma isoDate_chars days : allChars isDigitOrSign (isoDate days) = true.
Proof.
  unfold isoDate. destruct (civilFromDays days) as [[y m] d].
  by rewrite !allChars_app, isoYear_chars, !padStart0_chars.
Qed.

Lemma isDigitOrSign_not_T c : isDigitOrSign c = true -> isNot "T" c = true.
Proof. ascii_cases c; intros Hc; try discriminate Hc; reflexivity. Qed.

(** The part of the ISO string before its ['T'] is the date. *)
Lemma split_toISOString t :
  split "T" (toISOString t) !! 0%nat = Some (isoDate (t / msPerDay)).
Proof.
  unfold toISOString.
  change ("T" +:+ isoTime (t mod msPerDay)) with (String "T" (isoTime (t mod msPerDay))).
  rewrite split_app; [done|].
  eapply allChars_weaken; [apply isDigitOrSign_not_T|apply isoDate_chars].
Qed.

Section Facts.
Context `{PDFLib}.

Lemma mergePdfs_name pdfs now fileName blob :
  Merger.mergePdfs pdfs now = Downloaded fileName blob ->
  fileName = "merged-pdfs-" +:+ isoDate (now / msPerDay) +:+ ".pdf".
Proof.
  unfold Merger.mergePdfs. case_match; [done|]. rewrite split_toISOString.
  case_match; [|done]. by intros [= <- _].
Qed.

(** C9 (amended): the organizer delivers its output under the name
    [organized-] followed by the name of the loaded file, which no date
    enters; the merger delivers its output under [merged-pdfs-], the UTC
    date of the moment of the call and [.pdf], so that two merges on the
    same day have the same file name whatever files they merge. *)
Theorem download_names :
  (forall (st : Organizer.State) fileName blob,
     Organizer.savePdf st = Downloaded fileName blob ->
     exists file, Organizer.pdfFile st = Some file /\
                  fileName = "organized-" +:+ name file) /\
  (forall pdfs now fileName blob,
     Merger.mergePdfs pdfs now = Downloaded fileName blob ->
     fileName = "merged-pdfs-" +:+ isoDate (now / msPerDay) +:+ ".pdf") /\
  (forall pdfs pdfs' now now' fileName fileName' blob blob',
     now / msPerDay = now' / msPerDay ->
     Merger.mergePdfs pdfs now = Downloaded fileName blob ->
     Merger.mergePdfs pdfs' now' = Downloaded fileName' blob' ->
     fileName = fileName').
Proof.
  split_and!.
  - intros st fileName blob. unfold Organizer.savePdf.
    destruct (Organizer.pdfDoc st); [|done]. case_decide; [done|].
    destruct (_ ≫= _); [|done].
    destruct (Organizer.pdfFile st) as [file|]; [|done].
    intros [= <- _]. by exists file.
  - apply mergePdfs_name.
  - intros pdfs pdfs' now now' fileName fileName' blob blob' Hday
      ->%mergePdfs_name ->%mergePdfs_name.
    by rewrite Hday.
Qed.

End Facts.
End NamingFacts.

(** * The theorems at concrete inputs *)

Module Scenarios.
Import JS Organizer OrganizerFacts.

Lemma delete_guard_witness :
  deleteSelectedPages Toy.all_selected = (Toy.all_selected, Some AlertDeleteAll) /\
  ((deleteSelectedPages Toy.two_selected).2 = None /\
   length (pages (deleteSelectedPages Toy.two_selected).1) = 1%nat /\
   Forall (fun page => id page ∉ selectedPages Toy.two_selected)
          (pages (deleteSelectedPages Toy.two_selected).1)).
Proof.
  split.
  - apply (delete_guard Toy.all_selected); [vm_compute; lia|vm_compute; reflexivity].
  - apply (delete_guard Toy.two_selected).
    + vm_compute; lia.
    + apply (bool_decide_unpack _). vm_compute. exact I.
    + apply selection_consistent_subseteq, (bool_decide_unpack _). vm_compute. exact I.
    + vm_compute. reflexivity.
Defined.

Lemma load_then_save_round_trip_witness :
  length (pages (Toy.loaded Toy.file_a)) = 3%nat /\
  savePdf_newPdf (Toy.loaded Toy.file_a) = Some [Byte.x41; Byte.x42; Byte.x43] /\
  savePdf (Toy.loaded Toy.file_a)
  = Downloaded "organized-a.pdf" [Byte.x25; Byte.x41; Byte.x42; Byte.x43].
Proof.
  apply (load_then_save_round_trip (H := Toy.lib) initial Toy.file_a
           [Byte.x41; Byte.x42; Byte.x43]).
  - reflexivity.
  - simpl. lia.
  - vm_compute. reflexivity.
Defined.

Lemma movePage_moves_witness :
  (forall t : nat, (t < 4)%nat ->
     exists l', movePage ["a"; "b"; "c"; "d"] 1 (Z.of_nat t) = Some l' /\
       l' !! t = Some "b" /\ delete t l' = ["a"; "c"; "d"] /\
       l' ≡ₚ ["a"; "b"; "c"; "d"]) /\
  (forall t : Z, ~ (0 <= t < 4) -> movePage ["a"; "b"; "c"; "d"] 1 t = Some ["a"; "b"; "c"; "d"]) /\
  movePage ["a"; "b"; "c"; "d"] 1 1 = Some ["a"; "b"; "c"; "d"] /\
  (forall ms, Forall (fun m => 0 <= m.1 < 4) ms ->
     exists l' σ, movePages ["a"; "b"; "c"; "d"] ms = Some l' /\
       movePages [0; 1; 2; 3]%nat ms = Some σ /\
       σ ≡ₚ [0; 1; 2; 3]%nat /\
       forall k, l' !! k = σ !! k ≫= (fun j => ["a"; "b"; "c"; "d"] !! j)) /\
  (forall ms1 ms2,
     movePages ["a"; "b"; "c"; "d"] (ms1 ++ ms2)
     = l1 ← movePages ["a"; "b"; "c"; "d"] ms1; movePages l1 ms2).
Proof. exact (movePage_moves ["a"; "b"; "c"; "d"] 1 "b" eq_refl). Defined.

Example movePages_labelled :
  movePages ["a"; "b"; "c"; "d"] [(0, 2); (3, 0); (1, 1); (2, 9)] = Some ["d"; "b"; "c"; "a"] /\
  movePages [0; 1; 2; 3]%nat [(0, 2); (3, 0); (1, 1); (2, 9)] = Some [3; 1; 2; 0]%nat.
Proof. split; reflexivity. Qed.

Lemma load_failure_keeps_pages_witness :
  (handleFile (Toy.loaded Toy.file_a) Toy.file_bad).2 = Some AlertLoad /\
  pages (handleFile (Toy.loaded Toy.file_a) Toy.file_bad).1 = pages (Toy.loaded Toy.file_a) /\
  addPagesFromFile (Toy.loaded Toy.file_a) (Some [Toy.file_bad]) (fun _ => Toy.stamp)
  = (Toy.loaded Toy.file_a, Some AlertAdd).
Proof.
  exact (load_failure_keeps_pages (H := Toy.lib) (Toy.loaded Toy.file_a) Toy.file_bad []
           (fun _ => Toy.stamp) eq_refl).
Defined.

Lemma selection_stays_consistent_witness :
  selection_consistent Toy.clicked /\
  forall st', deleteSelectedPages Toy.clicked = (st', None) ->
    pages st' = filter (fun page => id page ∉ selectedPages Toy.clicked) (pages Toy.clicked) /\
    (forall x, x ∈ id <$> filter (fun page => id page ∈ selectedPages Toy.clicked)
                            (pages Toy.clicked) ->
               x ∉ selectedPages st') /\
    (forall x, x ∉ id <$> filter (fun page => id page ∈ selectedPages Toy.clicked)
                            (pages Toy.clicked) ->
               (x ∈ selectedPages st' <-> x ∈ selectedPages Toy.clicked)) /\
    selection_consistent st'.
Proof.
  apply (selection_stays_consistent Toy.clicked).
  exists Toy.clicked_events. vm_compute. reflexivity.
Defined.

Example clicked_then_deleted :
  id <$> pages (deleteSelectedPages Toy.clicked).1 = ["page-1"] /\
  (deleteSelectedPages Toy.clicked).2 = None.
Proof. split; vm_compute; reflexivity. Qed.


(** C2 (the code at the failing input): in a three-page document the copy of
    the second page is inserted right after it, with the same
    [originalIndex] and a new identity; the saved document still has the
    page once. *)
Theorem duplicate_dropped_on_save :
  exists ps',
    duplicatePage Toy.stamp "0.5" (pages (Toy.loaded Toy.file_a)) 1 = Some ps' /\
    id <$> ps' = ["page-0"; "page-1"; "page-1700000000000-0.5"; "page-2"] /\
    originalIndex <$> ps' = [0; 1; 1; 2] /\
    savePdf_newPdf (setPages (Toy.loaded Toy.file_a) ps')
    = Some [Byte.x41; Byte.x42; Byte.x43] /\
    savePdf (setPages (Toy.loaded Toy.file_a) ps')
    = Downloaded "organized-a.pdf" [Byte.x25; Byte.x41; Byte.x42; Byte.x43].
Proof. eexists. split_and!; vm_compute; reflexivity. Qed.

(** C3 (the code at the failing input): the user loads a one-page file and
    copies the page; the save delivers a file, raises nothing, and the
    delivered document has one page for the two entries of the sequence. *)
Lemma savePdf_omits_entry :
  run (H := Toy.lib) initial Toy.copied_events = Some Toy.copied /\
  length (pages Toy.copied) = 2%nat /\
  savePdf_newPdf Toy.copied = Some [Byte.x41] /\
  savePdf Toy.copied = Downloaded "organized-one.pdf" [Byte.x25; Byte.x41].
Proof. split_and!; vm_compute; reflexivity. Qed.

(** After a file that does not parse, pages added from a second file make a
    non-empty sequence with no loaded document: the save returns at its
    guard, with neither a file nor an alert. *)
Example savePdf_returns_at_guard :
  exists st,
    run (H := Toy.lib) initial
      [FileInput (Some [Toy.file_bad]);
       AddPagesInput (Some [Toy.file_a]) (fun _ => Toy.stamp)] = Some st /\
    length (pages st) = 3%nat /\ pdfDoc st = None /\ savePdf st = NotStarted.
Proof. eexists. split_and!; vm_compute; reflexivity. Qed.

(** C7 (counterexample): toggling an identity that no entry has puts it into
    the selection. *)
Lemma toggle_unknown_identity :
  ("ghost" ∉ id <$> pages (Toy.loaded Toy.file_one)) /\
  ("ghost" ∉ selectedPages (Toy.loaded Toy.file_one)) /\
  ("ghost" ∈ selectedPages (togglePageSelection (Toy.loaded Toy.file_one) "ghost")).
Proof. split_and!; apply (bool_decide_unpack _); vm_compute; exact I. Qed.

(** C9 (counterexample): two saves of the same bytes, whatever the day, are
    delivered under different names, those of the loaded files. *)
Lemma savePdf_name_is_file_name :
  savePdf (Toy.loaded Toy.file_a)
  = Downloaded "organized-a.pdf" [Byte.x25; Byte.x41; Byte.x42; Byte.x43] /\
  savePdf (Toy.loaded Toy.file_b)
  = Downloaded "organized-b.pdf" [Byte.x25; Byte.x41; Byte.x42; Byte.x43] /\
  arrayBuffer Toy.file_a = arrayBuffer Toy.file_b /\
  "organized-a.pdf" <> "organized-b.pdf".
Proof. split_and!; try (vm_compute; reflexivity). discriminate. Qed.

Example mergePdfs_same_day :
  let pdfs := [ {| Merger.id := "1"; Merger.file := Toy.file_a;
                   Merger.name := "a.pdf"; Merger.size := "4 Bytes" |};
                {| Merger.id := "2"; Merger.file := Toy.file_one;
                   Merger.name := "one.pdf"; Merger.size := "2 Bytes" |} ] in
  Merger.mergePdfs (H := Toy.lib) pdfs Toy.stamp
  = Downloaded "merged-pdfs-2023-11-14.pdf"
      [Byte.x25; Byte.x41; Byte.x42; Byte.x43; Byte.x41] /\
  Merger.mergePdfs (H := Toy.lib) (reverse pdfs) (Toy.stamp + 6000000)
  = Downloaded "merged-pdfs-2023-11-14.pdf"
      [Byte.x25; Byte.x41; Byte.x41; Byte.x42; Byte.x43].
Proof. split; vm_compute; reflexivity. Qed.

End Scenarios.

(** * Further facts about the organizer *)

Module OrganizerMore.
Import JS JSFacts Organizer OrganizerFacts.

Section Facts.
Context `{PDFLib}.

(** *** What a load and an addition create *)

Lemma handleFile_loop_entries pdf n i acc l :
  handleFile_loop pdf n i acc = Some l ->
  exists tail, l = acc ++ tail /\
    Forall2 (fun p (k : nat) =>
               id p = "page-" +:+ toString (i + Z.of_nat k) /\
               pageNumber p = i + Z.of_nat k + 1 /\
               originalIndex p = i + Z.of_nat k /\
               generateThumbnail pdf (i + Z.of_nat k) = Some (thumbnail p))
            tail (seq 0 n).
Proof.
  revert i acc. induction n as [|n IH]; intros i acc; simpl.
  - intros [= <-]. exists []. split; [by rewrite app_nil_r|constructor].
  - destruct (generateThumbnail pdf i) as [t|] eqn:Ht; [|done]. simpl.
    intros (tail & -> & HF)%IH. eexists (_ :: tail).
    split; [by rewrite <- app_assoc|].
    constructor; [simpl; by rewrite !Z.add_0_r|].
    rewrite <- fmap_S_seq. apply Forall2_fmap_r.
    eapply Forall2_impl; [exact HF|]. intros p k. simpl.
    by replace (i + 1 + Z.of_nat k) with (i + Z.of_nat (S k)) by lia.
Qed.

Lemma addPages_loop_entries newPdf now len n i acc l :
  addPages_loop newPdf now len n i acc = Some l ->
  exists tail, l = acc ++ tail /\
    Forall2 (fun p (k : nat) =>
               id p = "page-" +:+ toString (now (i + Z.of_nat k)) +:+ "-"
                        +:+ toString (i + Z.of_nat k) /\
               pageNumber p = len + (i + Z.of_nat k) + 1 /\
               originalIndex p = i + Z.of_nat k /\
               generateThumbnail newPdf (i + Z.of_nat k) = Some (thumbnail p))
            tail (seq 0 n).
Proof.
  revert i acc. induction n as [|n IH]; intros i acc; simpl.
  - intros [= <-]. exists []. split; [by rewrite app_nil_r|constructor].
  - destruct (generateThumbnail newPdf i) as [t|] eqn:Ht; [|done]. simpl.
    intros (tail & -> & HF)%IH. eexists (_ :: tail).
    split; [by rewrite <- app_assoc|].
    constructor; [simpl; by rewrite !Z.add_0_r|].
    rewrite <- fmap_S_seq. apply Forall2_fmap_r.
    eapply Forall2_impl; [exact HF|]. intros p k. simpl.
    by replace (i + 1 + Z.of_nat k) with (i + Z.of_nat (S k)) by lia.
Qed.

Lemma Forall2_seq_lookup {A} (P : A -> nat -> Prop) (l : list A) n :
  Forall2 P l (seq 0 n) <->
  length l = n /\ forall k x, l !! k = Some x -> P x k.
Proof.
  split.
  - intros HF. split; [by rewrite (Forall2_length _ _ _ HF), length_seq|].
    intros k x Hk. destruct (Forall2_lookup_l _ _ _ _ _ HF Hk) as (j & Hj & HP).
    apply lookup_seq in Hj as [-> _]. done.
  - intros [Hlen HP]. apply Forall2_same_length_lookup_2.
    + by rewrite length_seq.
    + intros k x j Hx Hj. apply lookup_seq in Hj as [-> _]. by apply HP.
Qed.

Lemma toString_inj a b : 0 <= a -> 0 <= b -> toString a = toString b -> a = b.
Proof.
  intros Ha Hb Heq. pose proof (parseInt_toString a Ha) as H1.
  rewrite Heq, (parseInt_toString b Hb) in H1. congruence.
Qed.

Lemma loaded_ids_NoDup (l : list PdfPage) n :
  Forall2 (fun p (k : nat) => id p = "page-" +:+ toString (Z.of_nat k)) l (seq 0 n) ->
  NoDup (id <$> l).
Proof.
  intros HF.
  assert (id <$> l = (fun k : nat => "page-" +:+ toString (Z.of_nat k)) <$> seq 0 n) as ->.
  { induction HF as [|p k l ks Hid _ IH]; [done|].
    rewrite !fmap_cons. f_equal; [exact Hid|exact IH]. }
  apply NoDup_fmap_2_strong; [|apply NoDup_seq].
  intros a b _ _ Heq. injection Heq as Heq.
  apply toString_inj in Heq; lia.
Qed.

(** X1: a load that raises no alert replaces the sequence by one entry per
    page of the parsed document, in page order, entry [k] being [page-k]
    with page number [k+1], original index [k] and the thumbnail of page
    [k]; it records file and document, empties the selection, and the new
    identities are pairwise distinct. *)
Theorem handleFile_loads (st : State) file doc :
  load (arrayBuffer file) = Some doc -> (handleFile st file).2 = None ->
  pdfFile (handleFile st file).1 = Some file /\
  pdfDoc (handleFile st file).1 = Some doc /\
  selectedPages (handleFile st file).1 = ∅ /\
  length (pages (handleFile st file).1) = length doc /\
  (forall (k : nat) p, pages (handleFile st file).1 !! k = Some p ->
     id p = "page-" +:+ toString (Z.of_nat k) /\
     pageNumber p = Z.of_nat k + 1 /\
     originalIndex p = Z.of_nat k /\
     generateThumbnail doc (Z.of_nat k) = Some (thumbnail p)) /\
  NoDup (id <$> pages (handleFile st file).1).
Proof.
  intros Hl. unfold handleFile. rewrite Hl.
  destruct (handleFile_loop doc (length doc) 0 []) as [pagesList|] eqn:Hloop; [|done].
  intros _. apply handleFile_loop_entries in Hloop as (tail & -> & HF).
  cbn [fst pdfFile pdfDoc selectedPages pages setPages setPdfDoc setSelectedPages
       setPdfFile app].
  pose proof (proj1 (Forall2_seq_lookup _ _ _) HF) as [Hlen Hk].
  split_and!; [done..| |].
  - intros k p Hp. destruct (Hk k p Hp) as (? & ? & ? & ?). rewrite !Z.add_0_l in *. done.
  - apply (loaded_ids_NoDup tail (length doc)).
    eapply Forall2_impl; [exact HF|]. intros p k (Hid & _). by rewrite Z.add_0_l in Hid.
Qed.

(** X2: an addition that raises no alert keeps state and entries and appends
    one entry per page of the added document, in page order: the [k]-th new
    entry has original index [k] (relative to the added document), page
    number [pages.length + k + 1] and the identity [page-<now>-<k>]; the
    added document itself is not kept ([pdfFile] and [pdfDoc] are as
    before). *)
Theorem addPagesFromFile_appends (st : State) file rest now newPdf :
  load (arrayBuffer file) = Some newPdf ->
  (addPagesFromFile st (Some (file :: rest)) now).2 = None ->
  exists newPages,
    (addPagesFromFile st (Some (file :: rest)) now).1 = setPages st (pages st ++ newPages) /\
    length newPages = length newPdf /\
    forall (k : nat) p, newPages !! k = Some p ->
      id p = "page-" +:+ toString (now (Z.of_nat k)) +:+ "-" +:+ toString (Z.of_nat k) /\
      pageNumber p = Z.of_nat (length (pages st)) + Z.of_nat k + 1 /\
      originalIndex p = Z.of_nat k /\
      generateThumbnail newPdf (Z.of_nat k) = Some (thumbnail p).
Proof.
  intros Hl. unfold addPagesFromFile. rewrite Hl.
  destruct (addPages_loop _ _ _ _ _ _) as [newPages|] eqn:Hloop; [|done].
  intros _. apply addPages_loop_entries in Hloop as (tail & -> & HF).
  exists tail. pose proof (proj1 (Forall2_seq_lookup _ _ _) HF) as [Hlen Hk].
  split_and!; [done..|].
  intros k p Hp. destruct (Hk k p Hp) as (? & ? & ? & ?). rewrite !Z.add_0_l in *. done.
Qed.

(** X3: the identity scheme read back, for numbers JavaScript writes and
    reads exactly (the integers from 0 up to 2^53, excluded).  What [savePdf]
    reads off the identity [page-<i>] of a loaded page is [i]; what it reads
    off an identity [page-<now>-<rest>], as Copy and Add Pages make them, is
    the time stamp [now], whatever follows it. *)
Theorem identity_read_back (page : PdfPage) (i : Z) (rest : string) :
  0 <= i < 2 ^ 53 ->
  (id page = "page-" +:+ toString i -> entryIndex page = Some i) /\
  (id page = "page-" +:+ toString i +:+ "-" +:+ rest -> entryIndex page = Some i).
Proof.
  intros [Hi _]. split; intros Hid.
  - by apply entryIndex_loaded.
  - by eapply entryIndex_stamped.
Qed.

(** *** Identities stay unique *)

Lemma movePage_Permutation {A} (l l' : list A) i t :
  movePage l i t = Some l' -> l' ≡ₚ l.
Proof.
  unfold movePage. case_match; [by intros [= <-]|].
  pose proof (splice_Permutation l i 1 []) as Hp.
  pose proof (splice_removed_length l i []) as Hl.
  destruct (splice l i 1 []) as [removed newPages]. cbn [fst snd] in Hp, Hl.
  destruct removed as [|x removed]; [done|].
  destruct removed; [|simpl in Hl; lia].
  destruct (splice_insert newPages t [x]) as (k & _ & _ & Hs).
  intros Heq. rewrite Hs in Heq. apply (inj Some) in Heq. subst l'.
  rewrite app_nil_r in Hp. rewrite <- Hp.
  rewrite <- (take_drop k newPages) at 3. solve_Permutation.
Qed.

Lemma stamped_not_digits now rnd i :
  0 <= i -> toString now +:+ "-" +:+ rnd <> toString i.
Proof.
  intros Hi Heq. pose proof (toString_digits i Hi) as Hd.
  rewrite <- Heq, allChars_app in Hd. apply andb_true_iff in Hd as [_ Hd]. done.
Qed.

(** X4: unique identities stay unique under deletion, under [movePage] and
    under a drop; after [duplicatePage] they are unique exactly when the
    identity made for the copy was not in use. *)
Theorem identities_stay_unique (st : State) :
  NoDup (id <$> pages st) ->
  NoDup (id <$> pages (deleteSelectedPages st).1) /\
  (forall i t l', movePage (pages st) i t = Some l' -> NoDup (id <$> l')) /\
  (forall dropIndex st', handlePageDrop st dropIndex = Some st' ->
     NoDup (id <$> pages st')) /\
  (forall tnow rnd index ps',
     duplicatePage tnow rnd (pages st) index = Some ps' ->
     (NoDup (id <$> ps') <->
      "page-" +:+ toString tnow +:+ "-" +:+ rnd ∉ id <$> pages st)).
Proof.
  intros Hnd. split_and!.
  - unfold deleteSelectedPages. repeat case_decide; try done. simpl.
    eapply sublist_NoDup; [exact Hnd|]. apply fmap_sublist, sublist_filter.
  - intros i t l' Hp%movePage_Permutation. by rewrite Hp.
  - intros dropIndex st' [Hp _]%handlePageDrop_Permutation. by rewrite Hp.
  - intros tnow rnd index ps' (i & page & _ & _ & ->)%duplicatePage_eq.
    assert (id <$> pages st
            = (id <$> take (S i) (pages st)) ++ (id <$> drop (S i) (pages st))) as Hids
      by (by rewrite <- fmap_app, take_drop).
    rewrite Hids in Hnd |- *. rewrite !fmap_app, fmap_cons. cbn [app id fmap list_fmap].
    rewrite <- Permutation_middle, NoDup_cons. tauto.
Qed.

(** X5: the identity made for a copy differs from the identity [page-<i>] of
    every loaded page, whatever the clock and the random number are: in a
    sequence of loaded pages a copy always gets an unused identity. *)
Theorem copy_identity_unused (ps : list PdfPage) (tnow : Z) (rnd : string) :
  Forall (fun p => exists i, 0 <= i /\ id p = "page-" +:+ toString i) ps ->
  "page-" +:+ toString tnow +:+ "-" +:+ rnd ∉ id <$> ps.
Proof.
  intros HF (p & Heq & Hp)%list_elem_of_fmap.
  rewrite Forall_forall in HF. destruct (HF p Hp) as (i & Hi & Hid).
  rewrite Hid in Heq. injection Heq as Heq. by eapply stamped_not_digits.
Qed.

(** *** Deleting and selecting *)

(** X6: with unique identities and a consistent selection, a deletion that
    raises no alert shortens the sequence by exactly the number of selected
    identities and keeps the remaining entries in their order; a deletion
    that raises the alert changes nothing; and in neither case does a
    non-empty sequence become empty. *)
Theorem delete_never_empties (st : State) :
  NoDup (id <$> pages st) -> selection_consistent st ->
  ((deleteSelectedPages st).2 = None ->
     length (pages (deleteSelectedPages st).1)
     = (length (pages st) - size (selectedPages st))%nat /\
     pages (deleteSelectedPages st).1 `sublist_of` pages st) /\
  ((deleteSelectedPages st).2 <> None -> (deleteSelectedPages st).1 = st) /\
  (pages st <> [] -> pages (deleteSelectedPages st).1 <> []).
Proof.
  intros Hnd Hc.
  pose proof (filter_complement_length
                (fun page => id page ∈ selectedPages st) (pages st)) as Hlen.
  rewrite (selected_entries_length _ _ Hnd Hc) in Hlen.
  unfold deleteSelectedPages.
  destruct (decide (size (selectedPages st) = 0%nat)) as [H0|H0]; cbn [fst snd].
  { split_and!; [|done..]. intros _. split; [lia|done]. }
  destruct (decide (length (pages st) = size (selectedPages st))) as [HN|HN]; cbn [fst snd].
  { split_and!; done. }
  cbn [pages setPages setSelectedPages]. split_and!; [|done|].
  - intros _. split; [unfold not in *; lia|apply sublist_filter].
  - intros _ Hnil.
    assert (length (filter (fun page => id page ∉ selectedPages st) (pages st)) = 0%nat) as Hz
      by (by rewrite Hnil).
    unfold not in *. lia.
Qed.

(** X7: toggling the same identity twice gives the state back, and one toggle
    changes the size of the selection by exactly one. *)
Theorem togglePageSelection_twice (st : State) (v : string) :
  togglePageSelection (togglePageSelection st v) v = st /\
  size (selectedPages (togglePageSelection st v))
  = if decide (v ∈ selectedPages st) then (size (selectedPages st) - 1)%nat
    else S (size (selectedPages st)).
Proof.
  split.
  - destruct st as [f d ps sel dr]. unfold togglePageSelection, setSelectedPages.
    cbn [pdfFile pdfDoc pages selectedPages draggedPageId]. f_equal.
    destruct (decide (v ∈ sel)).
    + rewrite decide_False by set_solver.
      apply set_eq. intros x. destruct (decide (x = v)); set_solver.
    + rewrite decide_True by set_solver. set_solver.
  - unfold togglePageSelection. cbn [selectedPages setSelectedPages].
    destruct (decide (v ∈ selectedPages st)).
    + rewrite size_difference by set_solver. by rewrite size_singleton.
    + rewrite size_union by set_solver. rewrite size_singleton. lia.
Qed.

(** *** Moving back and dropping *)

(** X8: a move is undone by the opposite move: after moving the entry at
    position [i] to a target [t] inside the array, moving the entry at [t]
    to [i] gives the original array; in particular the left and the right
    button undo each other. *)
Theorem movePage_back {A} (l : list A) (i t : nat) :
  (i < length l)%nat -> (t < length l)%nat ->
  exists l', movePage l (Z.of_nat i) (Z.of_nat t) = Some l' /\
             length l' = length l /\
             movePage l' (Z.of_nat t) (Z.of_nat i) = Some l.
Proof.
  intros Hi Ht. destruct (lookup_lt_is_Some_2 l i Hi) as [x Hx].
  rewrite (movePage_in_range l i t x Hx Ht).
  assert (length (delete i l) = (length l - 1)%nat) as Hd.
  { rewrite length_delete by eauto. lia. }
  eexists. split; [done|].
  assert (length (take t (delete i l) ++ x :: drop t (delete i l)) = length l) as Hlen.
  { rewrite length_app, length_take. simpl. rewrite length_drop. lia. }
  split; [done|].
  rewrite (movePage_in_range _ t i x); [| apply insert_at_lookup; lia | lia].
  rewrite insert_at_delete by lia. f_equal. by apply insert_delete_same.
Qed.

Lemma findIndex_first (ps : list PdfPage) (d : nat) p i :
  ps !! d = Some p ->
  (forall j q, (j < d)%nat -> ps !! j = Some q -> id q <> id p) ->
  findIndex (id p) ps i = i + Z.of_nat d.
Proof.
  revert d i. induction ps as [|q ps IH]; intros d i Hp Hfirst; [done|].
  destruct d as [|d]; simpl in *.
  - injection Hp as ->. rewrite decide_True by done. lia.
  - rewrite decide_False by (apply (Hfirst 0%nat); [lia|done]).
    rewrite (IH d (i + 1) Hp); [lia|].
    intros j r Hj Hr. apply (Hfirst (S j)); [lia|done].
Qed.

Lemma findIndex_absent x (ps : list PdfPage) i :
  x ∉ id <$> ps -> findIndex x ps i = -1.
Proof.
  revert i. induction ps as [|q ps IH]; intros i Hx; [done|]. simpl.
  rewrite fmap_cons, not_elem_of_cons in Hx. destruct Hx as [Hne Hx].
  rewrite decide_False by done. by apply IH.
Qed.

(** X9: a drop of the dragged entry (the first entry with the dragged
    identity, which is not the empty string, at position [d]) on the card at
    another position [t] clears the drag, keeps the selection, and puts the
    entry immediately before the card it was dropped on, all other entries
    staying in their order; so a drop on the next card ([t = d + 1]) leaves
    the order as it is. *)
Theorem handlePageDrop_places_before (st : State) (d t : nat) p q :
  draggedPageId st = Some (id p) -> id p <> "" ->
  pages st !! d = Some p ->
  (forall j r, (j < d)%nat -> pages st !! j = Some r -> id r <> id p) ->
  pages st !! t = Some q -> d <> t ->
  let f := if decide (d < t)%nat then (t - 1)%nat else t in
  exists st', handlePageDrop st (Z.of_nat t) = Some st' /\
    draggedPageId st' = None /\
    selectedPages st' = selectedPages st /\
    pages st' !! f = Some p /\
    pages st' !! S f = Some q /\
    delete f (pages st') = delete d (pages st) /\
    (t = S d -> pages st' = pages st).
Proof.
  intros Hdrag Hid Hp Hfirst Hq Hne f.
  pose proof (lookup_lt_Some _ _ _ Hp) as Hd.
  pose proof (lookup_lt_Some _ _ _ Hq) as Ht.
  unfold handlePageDrop. rewrite Hdrag, decide_False by done.
  rewrite (findIndex_first (pages st) d p 0 Hp Hfirst), Z.add_0_l.
  destruct (Z.eqb_spec (Z.of_nat d) (-1)); [lia|].
  destruct (Z.eqb_spec (Z.of_nat d) (Z.of_nat t)); [lia|]. cbn [orb].
  rewrite (splice_remove (pages st) d p Hp).
  assert (length (delete d (pages st)) = (length (pages st) - 1)%nat) as Hlen.
  { rewrite length_delete by eauto. lia. }
  assert ((if Z.of_nat d <? Z.of_nat t then Z.of_nat t - 1 else Z.of_nat t) = Z.of_nat f)
    as ->.
  { subst f. destruct (Z.ltb_spec (Z.of_nat d) (Z.of_nat t)); case_decide; lia. }
  assert (f <= length (delete d (pages st)))%nat as Hf
    by (subst f; case_decide; lia).
  destruct (splice_insert (delete d (pages st)) (Z.of_nat f) [p]) as (k & _ & Hk & Hs).
  rewrite Hs, Hk, Nat2Z.id by lia.
  eexists. split; [done|]. cbn [draggedPageId selectedPages pages setDraggedPageId setPages].
  split_and!; [done|done|by apply insert_at_lookup| |by apply insert_at_delete|].
  - rewrite lookup_app_r by (rewrite length_take; lia).
    rewrite length_take_le by lia. replace (S f - f)%nat with 1%nat by lia.
    simpl. rewrite lookup_drop, Nat.add_0_r.
    subst f. case_decide.
    + rewrite list_lookup_delete_ge by lia. by replace (S (t - 1)) with t by lia.
    + rewrite list_lookup_delete_lt by lia. done.
  - intros ->. subst f. rewrite decide_True by lia.
    replace (S d - 1)%nat with d by lia. by apply insert_delete_same.
Qed.

(** X10: a drop changes nothing at all when no drag is in progress, that is
    when [draggedPageId] is [null] or the empty string; and it changes
    neither the order nor the selection, only clearing the drag, when the
    dragged identity (not the empty string) belongs to no entry any more
    (its entry was deleted during the drag) and when the dragged entry is
    dropped on its own card. *)
Theorem handlePageDrop_keeps_order (st : State) (dropIndex : Z) :
  (draggedPageId st = None \/ draggedPageId st = Some "" ->
     handlePageDrop st dropIndex = Some st) /\
  (forall x, draggedPageId st = Some x -> x <> "" -> x ∉ id <$> pages st ->
     handlePageDrop st dropIndex = Some (setDraggedPageId st None)) /\
  (forall (d : nat) p,
     draggedPageId st = Some (id p) -> id p <> "" -> pages st !! d = Some p ->
     (forall j r, (j < d)%nat -> pages st !! j = Some r -> id r <> id p) ->
     dropIndex = Z.of_nat d ->
     handlePageDrop st dropIndex = Some (setDraggedPageId st None)).
Proof.
  unfold handlePageDrop. split_and!.
  - by intros [-> | ->].
  - intros x -> Hne Hx. rewrite decide_False by done.
    by rewrite (findIndex_absent x (pages st) 0 Hx).
  - intros d p -> Hne Hp Hfirst ->. rewrite decide_False by done.
    rewrite (findIndex_first (pages st) d p 0 Hp Hfirst), Z.add_0_l.
    by rewrite Z.eqb_refl, orb_true_r.
Qed.

Lemma handlePageDrop_file (st st' : State) dropIndex :
  handlePageDrop st dropIndex = Some st' ->
  pdfFile st' = pdfFile st /\ pdfDoc st' = pdfDoc st.
Proof.
  unfold handlePageDrop. destruct (draggedPageId st); [|by intros [= <-]].
  case_decide; [by intros [= <-]|].
  case_match; [by intros [= <-]|].
  destruct (splice (pages st) _ 1 []) as [removed newPages].
  destruct removed; [done|]. by intros [= <-].
Qed.

Lemma addPagesFromFile_file (st : State) files now :
  pdfFile (addPagesFromFile st files now).1 = pdfFile st /\
  pdfDoc (addPagesFromFile st files now).1 = pdfDoc st.
Proof.
  unfold addPagesFromFile. destruct files as [[|f fs]|]; [done| |done].
  destruct (load (arrayBuffer f)); [|done].
  by destruct (addPages_loop _ _ _ _ _ _).
Qed.

Lemma deleteSelectedPages_file (st : State) :
  pdfFile (deleteSelectedPages st).1 = pdfFile st /\
  pdfDoc (deleteSelectedPages st).1 = pdfDoc st.
Proof. unfold deleteSelectedPages. by repeat case_decide. Qed.

Lemma handleFile_document (st : State) file :
  pdfFile st = None -> document_of_file st -> document_of_file (handleFile st file).1.
Proof.
  unfold document_of_file. intros -> [Hd Hp]. unfold handleFile.
  destruct (load (arrayBuffer file)) as [pdf|] eqn:Hl; cbn; [|by rewrite Hl].
  destruct (handleFile_loop _ _ _ _); cbn; by rewrite Hl.
Qed.

Lemma document_of_file_same (st st' : State) f :
  pdfFile st = Some f -> pdfFile st' = pdfFile st -> pdfDoc st' = pdfDoc st ->
  document_of_file st -> document_of_file st'.
Proof. unfold document_of_file. intros Hf -> ->. by rewrite Hf. Qed.

Lemma step_document (st st' : State) ev :
  document_of_file st -> step st ev = Some st' -> document_of_file st'.
Proof.
  intros Hdoc. unfold step.
  destruct ev as [files|files|index| |index|index tnow rnd|index|files tnow| |index|index],
           (pdfFile st) as [f0|] eqn:Hf; try done.
  - destruct files as [|f fs]; [by intros [= <-]|].
    case_decide; intros [= <-]; [|done]. by apply handleFile_document.
  - destruct files as [[|f fs]|]; try (by intros [= <-]). intros [= <-].
    by apply handleFile_document.
  - destruct (pages st !! index); [|done]. intros [= <-].
    by apply (document_of_file_same st _ f0).
  - case_decide; [done|]. intros [= <-].
    destruct (deleteSelectedPages_file st). by apply (document_of_file_same st _ f0).
  - destruct (pages st !! index); [|done]. simpl. case_decide; [done|].
    destruct (movePage _ _ _); [|done]. intros [= <-].
    by apply (document_of_file_same st _ f0).
  - destruct (pages st !! index); [|done]. simpl.
    destruct (duplicatePage _ _ _ _); [|done]. intros [= <-].
    by apply (document_of_file_same st _ f0).
  - destruct (pages st !! index); [|done]. simpl. case_decide; [done|].
    destruct (movePage _ _ _); [|done]. intros [= <-].
    by apply (document_of_file_same st _ f0).
  - intros [= <-]. destruct (addPagesFromFile_file st files tnow).
    by apply (document_of_file_same st _ f0).
  - by intros [= <-].
  - destruct (pages st !! index); [|done]. intros [= <-].
    by apply (document_of_file_same st _ f0).
  - destruct (pages st !! index); [|done]. simpl.
    intros [? ?]%handlePageDrop_file. by apply (document_of_file_same st _ f0).
Qed.

Lemma run_document (st st' : State) evs :
  document_of_file st -> run st evs = Some st' -> document_of_file st'.
Proof.
  revert st. induction evs as [|ev evs IH]; intros st Hd; simpl.
  - by intros [= <-].
  - destruct (step st ev) as [st1|] eqn:Hs; [|done]. simpl.
    apply IH. by eapply step_document.
Qed.

(** *** Saving what is displayed *)







Lemma savePdf_loop_ids originalPdf ps ps' out :
  id <$> ps = id <$> ps' ->
  savePdf_loop originalPdf ps out = savePdf_loop originalPdf ps' out.
Proof.
  revert ps' out. induction ps as [|p ps IH]; intros [|p' ps'] out Hids; try done.
  rewrite !fmap_cons in Hids. injection Hids as Hid Hids. simpl.
  rewrite Hid. destruct (parseIntAt1 _); [|by apply IH].
  case_match; [|by apply IH].
  destruct (copyPage originalPdf z); simpl; [by apply IH|done].
Qed.

(** X13: the save reads nothing of an entry but its identity, and nothing of
    the state but the file, the presence of a document and the entries: two
    states that agree on these deliver the same, whatever the entries'
    original indices, page numbers and thumbnails and whatever the selection
    and the drag are. *)
Theorem savePdf_reads_identities_only (st st' : State) :
  pdfFile st = pdfFile st' ->
  (pdfDoc st = None <-> pdfDoc st' = None) ->
  id <$> pages st = id <$> pages st' ->
  savePdf st = savePdf st'.
Proof.
  intros Hf Hd Hids.
  assert (length (pages st) = length (pages st')) as Hlen.
  { by rewrite <- (length_fmap id (pages st)), Hids, length_fmap. }
  assert (savePdf_newPdf st = savePdf_newPdf st') as Hnew.
  { unfold savePdf_newPdf. rewrite Hf. destruct (pdfFile st'); [|done]. simpl.
    destruct (load _); [|done]. simpl. by apply savePdf_loop_ids. }
  unfold savePdf. rewrite Hnew, Hf, Hlen.
  destruct (pdfDoc st), (pdfDoc st'); try done; [|].
  - exfalso. by destruct Hd as [_ Hd]; specialize (Hd eq_refl).
  - exfalso. by destruct Hd as [Hd _]; specialize (Hd eq_refl).
Qed.

End Facts.
End OrganizerMore.

(** * Facts about the merger and the image list *)

Module MergerMore.
Import JS JSFacts Merger OrganizerFacts.

(** *** Reordering and removing *)

Lemma movePdf_down {A} (pre post : list A) a b :
  movePdf (pre ++ a :: b :: post) (Z.of_nat (length pre)) Down
  = Some (pre ++ b :: a :: post).
Proof.
  unfold movePdf, at_index. rewrite length_app. cbn [length].
  destruct (Z.geb_spec (Z.of_nat (length pre) + 1) 0); [|lia].
  destruct (Z.ltb_spec (Z.of_nat (length pre) + 1)
              (Z.of_nat (length pre + S (S (length post))))); [|lia].
  cbn [andb]. destruct (Z.ltb_spec (Z.of_nat (length pre) + 1) 0); [lia|].
  destruct (Z.ltb_spec (Z.of_nat (length pre)) 0); [lia|].
  replace (Z.to_nat (Z.of_nat (length pre) + 1)) with (length pre + 1)%nat by lia.
  rewrite Nat2Z.id.
  rewrite (lookup_app_r pre), (lookup_app_r pre) by lia.
  replace (length pre + 1 - length pre)%nat with 1%nat by lia.
  rewrite Nat.sub_diag. cbn [lookup list_lookup].
  rewrite <- (Nat.add_0_r (length pre)) at 2.
  by rewrite !insert_app_r.
Qed.

Lemma movePdf_up {A} (pre post : list A) a b :
  movePdf (pre ++ a :: b :: post) (Z.of_nat (length pre) + 1) Up
  = Some (pre ++ b :: a :: post).
Proof.
  unfold movePdf, at_index. rewrite length_app. cbn [length].
  replace (Z.of_nat (length pre) + 1 - 1) with (Z.of_nat (length pre)) by lia.
  destruct (Z.geb_spec (Z.of_nat (length pre)) 0); [|lia].
  destruct (Z.ltb_spec (Z.of_nat (length pre))
              (Z.of_nat (length pre + S (S (length post))))); [|lia].
  cbn [andb]. destruct (Z.ltb_spec (Z.of_nat (length pre) + 1) 0); [lia|].
  destruct (Z.ltb_spec (Z.of_nat (length pre)) 0); [lia|].
  replace (Z.to_nat (Z.of_nat (length pre) + 1)) with (length pre + 1)%nat by lia.
  rewrite Nat2Z.id.
  rewrite (lookup_app_r pre), (lookup_app_r pre) by lia.
  replace (length pre + 1 - length pre)%nat with 1%nat by lia.
  rewrite Nat.sub_diag. cbn [lookup list_lookup].
  rewrite <- (Nat.add_0_r (length pre)) at 1.
  by rewrite !insert_app_r.
Qed.

(** X14: the arrow buttons of the merger swap two neighbours and touch
    nothing else: Down on the upper and Up on the lower of two neighbours
    both exchange exactly these two, so each undoes the other; Up on the
    first and Down on the last entry leave the list as it is. *)
Theorem movePdf_swaps_neighbours {A} (pre post : list A) (a b : A) :
  movePdf (pre ++ a :: b :: post) (Z.of_nat (length pre)) Down
    = Some (pre ++ b :: a :: post) /\
  movePdf (pre ++ a :: b :: post) (Z.of_nat (length pre) + 1) Up
    = Some (pre ++ b :: a :: post) /\
  (l' ← movePdf (pre ++ a :: b :: post) (Z.of_nat (length pre)) Down;
   movePdf l' (Z.of_nat (length pre) + 1) Up) = Some (pre ++ a :: b :: post) /\
  movePdf (a :: post) 0 Up = Some (a :: post) /\
  movePdf (pre ++ [a]) (Z.of_nat (length pre)) Down = Some (pre ++ [a]).
Proof.
  split_and!.
  - apply movePdf_down.
  - apply movePdf_up.
  - rewrite movePdf_down. simpl. apply movePdf_up.
  - done.
  - unfold movePdf. rewrite length_app. cbn [length].
    destruct (Z.ltb_spec (Z.of_nat (length pre) + 1) (Z.of_nat (length pre + 1))); [lia|].
    by rewrite andb_false_r.
Qed.

Lemma movePage_down {A} (pre post : list A) a b :
  Organizer.movePage (pre ++ a :: b :: post) (Z.of_nat (length pre))
    (Z.of_nat (length pre) + 1)
  = Some (pre ++ b :: a :: post).
Proof.
  replace (Z.of_nat (length pre) + 1) with (Z.of_nat (S (length pre))) by lia.
  rewrite (movePage_in_range _ (length pre) (S (length pre)) a).
  - rewrite delete_middle. f_equal.
    replace (S (length pre)) with (length pre + 1)%nat by lia.
    rewrite take_app_add, drop_app_add. simpl. rewrite take_0, drop_0.
    by rewrite <- app_assoc.
  - by apply list_lookup_middle.
  - rewrite length_app. simpl. lia.
Qed.

Lemma movePage_up {A} (pre post : list A) a b :
  Organizer.movePage (pre ++ a :: b :: post) (Z.of_nat (length pre) + 1)
    (Z.of_nat (length pre) + 1 - 1)
  = Some (pre ++ b :: a :: post).
Proof.
  replace (Z.of_nat (length pre) + 1 - 1) with (Z.of_nat (length pre)) by lia.
  replace (Z.of_nat (length pre) + 1) with (Z.of_nat (S (length pre))) by lia.
  rewrite (movePage_in_range _ (S (length pre)) (length pre) b).
  - change (pre ++ a :: b :: post) with (pre ++ [a] ++ b :: post).
    rewrite app_assoc.
    replace (S (length pre)) with (length (pre ++ [a])) at 1 2
      by (rewrite length_app; simpl; lia).
    rewrite delete_middle, <- app_assoc. simpl.
    by rewrite take_app_length, drop_app_length.
  - change (pre ++ a :: b :: post) with (pre ++ [a] ++ b :: post).
    rewrite app_assoc. apply list_lookup_middle. rewrite length_app. simpl. lia.
  - rewrite length_app. simpl. lia.
Qed.

Lemma neighbours {A} (l : list A) (i : nat) a b :
  l !! i = Some a -> l !! S i = Some b ->
  exists pre post, l = pre ++ a :: b :: post /\ length pre = i.
Proof.
  intros Ha Hb. exists (take i l), (drop (S (S i)) l). split.
  - rewrite <- (take_drop i l) at 1. f_equal.
    rewrite (drop_S _ _ _ Ha). f_equal. by rewrite (drop_S _ _ _ Hb).
  - apply lookup_lt_Some in Ha. rewrite length_take. lia.
Qed.

(** X15: the arrow buttons of the organizer and of the merger do the same to
    their lists: for an entry at position [i], [movePage] to [i + 1] is
    [movePdf] Down and [movePage] to [i - 1] is [movePdf] Up, at the ends of
    the list too. *)
Theorem movePage_is_movePdf {A} (l : list A) (i : nat) :
  (i < length l)%nat ->
  Organizer.movePage l (Z.of_nat i) (Z.of_nat i + 1) = movePdf l (Z.of_nat i) Down /\
  Organizer.movePage l (Z.of_nat i) (Z.of_nat i - 1) = movePdf l (Z.of_nat i) Up.
Proof.
  intros Hi. destruct (lookup_lt_is_Some_2 l i Hi) as [a Ha]. split.
  - destruct (decide (S i < length l)%nat) as [Hn|Hn].
    + destruct (lookup_lt_is_Some_2 l (S i) Hn) as [b Hb].
      destruct (neighbours l i a b Ha Hb) as (pre & post & -> & <-).
      by rewrite movePage_down, movePdf_down.
    + rewrite movePage_out_of_range by lia. unfold movePdf.
      destruct (Z.ltb_spec (Z.of_nat i + 1) (Z.of_nat (length l))); [lia|].
      by rewrite andb_false_r.
  - destruct i as [|k].
    + rewrite movePage_out_of_range by lia. done.
    + destruct (lookup_lt_is_Some_2 l k) as [b Hb]; [lia|].
      destruct (neighbours l k b a Hb Ha) as (pre & post & -> & <-).
      replace (Z.of_nat (S (length pre))) with (Z.of_nat (length pre) + 1) by lia.
      by rewrite movePage_up, movePdf_up.
Qed.

(** X16: removing a file from the merger's list takes out every entry with
    the given identity and keeps the others in their order; removing an
    identity that no entry has changes nothing, removing twice is removing
    once, and with unique identities exactly one entry goes. *)
Theorem removePdf_removes (prev : list PdfFile) (x : string) :
  (forall pdf, pdf ∈ removePdf prev x <-> pdf ∈ prev /\ id pdf <> x) /\
  removePdf prev x `sublist_of` prev /\
  (x ∉ id <$> prev -> removePdf prev x = prev) /\
  removePdf (removePdf prev x) x = removePdf prev x /\
  (NoDup (id <$> prev) -> x ∈ id <$> prev ->
   S (length (removePdf prev x)) = length prev).
Proof.
  unfold removePdf. split_and!.
  - intros pdf. rewrite list_elem_of_filter. tauto.
  - apply sublist_filter.
  - intros Hx. apply filter_all. intros pdf Hpdf Heq. apply Hx.
    apply list_elem_of_fmap. eauto.
  - apply filter_all. by intros pdf [? _]%list_elem_of_filter.
  - induction prev as [|pdf prev IH]; intros Hnd Hx; [by apply elem_of_nil in Hx|].
    rewrite fmap_cons in Hnd, Hx. apply NoDup_cons in Hnd as [Hnotin Hnd].
    destruct (decide (id pdf = x)) as [Heq|Hne].
    + rewrite filter_cons_False by (by intros ?). simpl. f_equal.
      rewrite filter_all; [done|]. intros q Hq Hidq. apply Hnotin.
      rewrite Heq, <- Hidq. apply list_elem_of_fmap. eauto.
    + rewrite filter_cons_True by done. simpl. f_equal. apply IH; [done|].
      apply elem_of_cons in Hx as [Hx|Hx]; [congruence|done].
Qed.

Section Facts.
Context `{PDFLib}.

(** *** Merging *)

Lemma foldl_addPage (merged pdf : PDFDocument) :
  foldl addPage merged (copyAllPages pdf) = merged ++ pdf.
Proof.
  unfold copyAllPages, addPage. revert merged.
  induction pdf as [|x pdf IH]; intros merged; simpl; [by rewrite app_nil_r|].
  by rewrite IH, <- app_assoc.
Qed.

Lemma mergePdfs_loop_parsed pdfs docs merged :
  Forall2 (fun pdf doc => load (arrayBuffer (file pdf)) = Some doc) pdfs docs ->
  mergePdfs_loop pdfs merged = Some (merged ++ concat docs).
Proof.
  intros HF. revert merged.
  induction HF as [|pdf doc pdfs docs Hl _ IH]; intros merged; simpl.
  - by rewrite app_nil_r.
  - rewrite Hl. simpl. by rewrite foldl_addPage, IH, <- app_assoc.
Qed.

Lemma mergePdfs_loop_unparsed pdfs merged :
  Exists (fun pdf => load (arrayBuffer (file pdf)) = None) pdfs ->
  mergePdfs_loop pdfs merged = None.
Proof.
  intros HE. revert merged.
  induction pdfs as [|pdf pdfs IH]; intros merged; [by inversion HE|]. simpl.
  destruct (load (arrayBuffer (file pdf))) as [doc|] eqn:Hl; [|done]. simpl.
  apply IH. apply Exists_cons in HE as [HE|HE]; [congruence|done].
Qed.

(** X17: when every listed file parses and there are at least two, the merge
    hands the serializer the pages of all documents, document after
    document in the order of the list, and delivers the serialization under
    the dated name. *)
Theorem mergePdfs_concatenates pdfs docs now :
  (2 <= length pdfs)%nat ->
  Forall2 (fun pdf doc => load (arrayBuffer (file pdf)) = Some doc) pdfs docs ->
  mergePdfs_loop pdfs create = Some (concat docs) /\
  mergePdfs pdfs now
  = match save (concat docs) with
    | Some blob =>
        Downloaded ("merged-pdfs-" +:+ isoDate (now / msPerDay) +:+ ".pdf") blob
    | None => Alerted
    end.
Proof.
  intros Hlen HF.
  pose proof (mergePdfs_loop_parsed pdfs docs create HF) as Hloop. simpl in Hloop.
  split; [done|]. unfold mergePdfs.
  destruct (Z.ltb_spec (Z.of_nat (length pdfs)) 2); [lia|].
  rewrite Hloop. simpl. rewrite NamingFacts.split_toISOString. simpl.
  by destruct (save (concat docs)).
Qed.

(** X18: the merge is all or nothing.  With fewer than two files it does not
    start; with a file the library cannot parse anywhere in the list it
    raises its alert and delivers nothing, whatever the other files are. *)
Theorem mergePdfs_all_or_nothing pdfs now :
  ((length pdfs < 2)%nat -> mergePdfs pdfs now = NotStarted) /\
  ((2 <= length pdfs)%nat ->
   Exists (fun pdf => load (arrayBuffer (file pdf)) = None) pdfs ->
   mergePdfs pdfs now = Alerted).
Proof.
  unfold mergePdfs. split.
  - intros Hlen. destruct (Z.ltb_spec (Z.of_nat (length pdfs)) 2); [done|lia].
  - intros Hlen HE. destruct (Z.ltb_spec (Z.of_nat (length pdfs)) 2); [lia|].
    by rewrite (mergePdfs_loop_unparsed pdfs create HE).
Qed.

(** *** Adding files *)

(** X19: [handleFiles] keeps the listed files and appends, in the order
    given, one entry for each file whose type is [application/pdf], carrying
    the file and its name; files of another type are ignored.  Merging the
    list made from nothing but such an addition therefore delivers, when the
    PDF-typed files are at least two and all parse, their pages in the order
    given. *)
Theorem handleFiles_appends_pdfs formatFileSize prev files now rnd :
  take (length prev) (handleFiles formatFileSize prev files now rnd) = prev /\
  file <$> drop (length prev) (handleFiles formatFileSize prev files now rnd)
  = filter (fun f => type f = "application/pdf") files /\
  Forall (fun pdf => name pdf = (let 'Build_File fileName _ _ := file pdf in fileName))
         (drop (length prev) (handleFiles formatFileSize prev files now rnd)) /\
  (forall docs tnow,
     Forall2 (fun f doc => load (arrayBuffer f) = Some doc)
             (filter (fun f => type f = "application/pdf") files) docs ->
     (2 <= length docs)%nat ->
     mergePdfs (handleFiles formatFileSize [] files now rnd) tnow
     = match save (concat docs) with
       | Some blob =>
           Downloaded ("merged-pdfs-" +:+ isoDate (tnow / msPerDay) +:+ ".pdf") blob
       | None => Alerted
       end).
Proof.
  unfold handleFiles.
  set (pdfFiles := filter (fun f => type f = "application/pdf") files) in *.
  rewrite take_app_length, drop_app_length.
  assert (forall g : nat -> File -> PdfFile,
            (forall k f, file (g k f) = f) -> file <$> imap g pdfFiles = pdfFiles) as Hfile.
  { intros g Hg. apply list_eq. intros k.
    rewrite list_lookup_fmap, list_lookup_imap. destruct (pdfFiles !! k); simpl; [|done].
    by rewrite Hg. }
  split_and!; [done|by apply Hfile| |].
  - apply Forall_forall. intros pdf [k Hk]%list_elem_of_lookup.
    rewrite list_lookup_imap in Hk. destruct (pdfFiles !! k); simpl in Hk; [|done].
    by injection Hk as <-.
  - intros docs tnow HF Hlen. simpl.
    set (newPdfs := imap _ pdfFiles).
    assert (Forall2 (fun pdf doc => load (arrayBuffer (file pdf)) = Some doc) newPdfs docs)
      as HF'.
    { apply Forall2_same_length_lookup_2.
      - subst newPdfs. rewrite length_imap. by apply Forall2_length in HF.
      - intros k pdf doc Hk Hd. subst newPdfs. rewrite list_lookup_imap in Hk.
        destruct (pdfFiles !! k) as [f|] eqn:Hf; simpl in Hk; [|done].
        injection Hk as <-. simpl.
        by destruct (Forall2_lookup_lr _ _ _ _ _ _ HF Hf Hd). }
    pose proof (mergePdfs_loop_parsed newPdfs docs create HF') as Hloop. simpl in Hloop.
    unfold mergePdfs.
    destruct (Z.ltb_spec (Z.of_nat (length newPdfs)) 2) as [Hlt|_].
    { apply Forall2_length in HF'. lia. }
    rewrite Hloop. simpl. rewrite NamingFacts.split_toISOString. simpl.
    by destruct (save (concat docs)).
Qed.

End Facts.

(** *** The image list *)

(** X20: [moveImage] has no guard on its target.  For an entry at position
    [i] it always yields a rearrangement of the same entries; a target
    inside the array gives what [movePage] gives, and a target at or past
    the last position puts the entry at the end. *)
Theorem moveImage_clamps {A} (l : list A) (i : nat) (x : A) :
  l !! i = Some x ->
  (forall t, exists l', ImageToPdf.moveImage l (Z.of_nat i) t = Some l' /\
                        l' ≡ₚ l /\ length l' = length l) /\
  (forall t, 0 <= t < Z.of_nat (length l) ->
     ImageToPdf.moveImage l (Z.of_nat i) t = Organizer.movePage l (Z.of_nat i) t) /\
  (forall t, Z.of_nat (length l) - 1 <= t ->
     ImageToPdf.moveImage l (Z.of_nat i) t = Some (delete i l ++ [x])).
Proof.
  intros Hx. pose proof (lookup_lt_Some _ _ _ Hx) as Hi.
  assert (length (delete i l) = (length l - 1)%nat) as Hd.
  { rewrite length_delete by eauto. lia. }
  unfold ImageToPdf.moveImage. rewrite (splice_remove l i x Hx). split_and!.
  - intros t. destruct (splice_insert (delete i l) t [x]) as (k & Hk & _ & ->).
    eexists. split; [done|]. split.
    + cbn [app]. rewrite <- Permutation_middle, take_drop, delete_take_drop.
      rewrite Permutation_middle. by rewrite <- (drop_S _ _ _ Hx), take_drop.
    + cbn [app]. rewrite length_app, length_take. simpl. rewrite length_drop. lia.
  - intros t Ht. unfold Organizer.movePage.
    destruct (Z.ltb_spec t 0); [lia|].
    destruct (Z.geb_spec t (Z.of_nat (length l))); [lia|]. cbn [orb].
    by rewrite (splice_remove l i x Hx).
  - intros t Ht. f_equal. unfold splice. cbn [snd].
    destruct (Z.ltb_spec t 0); [lia|].
    replace (Z.min t (Z.of_nat (length (delete i l))))
      with (Z.of_nat (length (delete i l))) by lia.
    replace (Z.to_nat (_ + _)) with (length (delete i l)) by lia.
    rewrite Nat2Z.id, firstn_all, drop_all. done.
Qed.

End MergerMore.

(** * The further facts at concrete inputs *)

Module MoreScenarios.
Import JS Organizer OrganizerFacts OrganizerMore.

Lemma toy_unique : NoDup (id <$> pages (Toy.loaded Toy.file_a)).
Proof. apply (bool_decide_unpack _). vm_compute. exact I. Qed.

Lemma handleFile_loads_witness :
  pdfFile (Toy.loaded Toy.file_a) = Some Toy.file_a /\
  pdfDoc (Toy.loaded Toy.file_a) = Some [Byte.x41; Byte.x42; Byte.x43] /\
  selectedPages (Toy.loaded Toy.file_a) = ∅ /\
  length (pages (Toy.loaded Toy.file_a)) = 3%nat /\
  (forall (k : nat) p, pages (Toy.loaded Toy.file_a) !! k = Some p ->
     id p = "page-" +:+ toString (Z.of_nat k) /\
     pageNumber p = Z.of_nat k + 1 /\
     originalIndex p = Z.of_nat k /\
     generateThumbnail (H := Toy.lib) [Byte.x41; Byte.x42; Byte.x43] (Z.of_nat k)
     = Some (thumbnail p)) /\
  NoDup (id <$> pages (Toy.loaded Toy.file_a)).
Proof.
  exact (handleFile_loads (H := Toy.lib) initial Toy.file_a
           [Byte.x41; Byte.x42; Byte.x43] eq_refl eq_refl).
Defined.

Lemma addPagesFromFile_appends_witness :
  exists newPages,
    (addPagesFromFile (Toy.loaded Toy.file_a) (Some [Toy.file_one]) (fun _ => Toy.stamp)).1
    = setPages (Toy.loaded Toy.file_a) (pages (Toy.loaded Toy.file_a) ++ newPages) /\
    length newPages = 1%nat /\
    forall (k : nat) p, newPages !! k = Some p ->
      id p = "page-" +:+ toString Toy.stamp +:+ "-" +:+ toString (Z.of_nat k) /\
      pageNumber p = 3 + Z.of_nat k + 1 /\
      originalIndex p = Z.of_nat k /\
      generateThumbnail (H := Toy.lib) [Byte.x41] (Z.of_nat k) = Some (thumbnail p).
Proof.
  exact (addPagesFromFile_appends (H := Toy.lib) (Toy.loaded Toy.file_a) Toy.file_one []
           (fun _ => Toy.stamp) [Byte.x41] eq_refl eq_refl).
Defined.

Lemma identity_read_back_witness :
  entryIndex (Toy.entry 7 "") = Some 7 /\
  entryIndex {| id := "page-1700000000000-0.5"; pageNumber := 1; thumbnail := "";
                originalIndex := 0 |} = Some 1700000000000.
Proof.
  split.
  - apply (proj1 (identity_read_back (Toy.entry 7 "") 7 ""
                    ltac:(split; [lia|reflexivity]))). reflexivity.
  - apply (proj2 (identity_read_back _ 1700000000000 "0.5"
                    ltac:(split; [lia|reflexivity]))). reflexivity.
Defined.

Lemma identities_stay_unique_witness :
  NoDup (id <$> pages (deleteSelectedPages Toy.two_selected).1) /\
  (forall i t l', movePage (pages Toy.two_selected) i t = Some l' -> NoDup (id <$> l')) /\
  (forall dropIndex st', handlePageDrop Toy.two_selected dropIndex = Some st' ->
     NoDup (id <$> pages st')) /\
  (forall tnow rnd index ps',
     duplicatePage tnow rnd (pages Toy.two_selected) index = Some ps' ->
     (NoDup (id <$> ps') <->
      "page-" +:+ toString tnow +:+ "-" +:+ rnd ∉ id <$> pages Toy.two_selected)).
Proof. exact (identities_stay_unique Toy.two_selected toy_unique). Defined.

Lemma copy_identity_unused_witness :
  "page-" +:+ toString Toy.stamp +:+ "-" +:+ "0.5" ∉ id <$> pages (Toy.loaded Toy.file_a).
Proof.
  apply (copy_identity_unused (pages (Toy.loaded Toy.file_a)) Toy.stamp "0.5").
  repeat constructor; [by exists 0|by exists 1|by exists 2].
Defined.

Lemma delete_never_empties_witness :
  ((deleteSelectedPages Toy.two_selected).2 = None ->
     length (pages (deleteSelectedPages Toy.two_selected).1)
     = (length (pages Toy.two_selected) - size (selectedPages Toy.two_selected))%nat /\
     pages (deleteSelectedPages Toy.two_selected).1 `sublist_of` pages Toy.two_selected) /\
  ((deleteSelectedPages Toy.two_selected).2 <> None ->
     (deleteSelectedPages Toy.two_selected).1 = Toy.two_selected) /\
  (pages Toy.two_selected <> [] -> pages (deleteSelectedPages Toy.two_selected).1 <> []).
Proof.
  apply (delete_never_empties Toy.two_selected toy_unique).
  apply selection_consistent_subseteq, (bool_decide_unpack _). vm_compute. exact I.
Defined.

Lemma movePage_back_witness :
  exists l', movePage ["a"; "b"; "c"; "d"] 1 3 = Some l' /\
             length l' = 4%nat /\
             movePage l' 3 1 = Some ["a"; "b"; "c"; "d"].
Proof. apply (movePage_back ["a"; "b"; "c"; "d"] 1 3); simpl; lia. Defined.

Lemma handlePageDrop_places_before_witness :
  exists st', handlePageDrop Toy.dragging 2 = Some st' /\
    draggedPageId st' = None /\
    selectedPages st' = selectedPages Toy.dragging /\
    pages st' !! 1%nat = Some (Toy.entry 0 "blob:%A") /\
    pages st' !! 2%nat = Some (Toy.entry 2 "blob:%C") /\
    delete 1%nat (pages st') = delete 0%nat (pages Toy.dragging) /\
    (2%nat = 1%nat -> pages st' = pages Toy.dragging).
Proof.
  apply (handlePageDrop_places_before Toy.dragging 0 2
           (Toy.entry 0 "blob:%A") (Toy.entry 2 "blob:%C")).
  - reflexivity.
  - discriminate.
  - reflexivity.
  - intros j r Hj. lia.
  - reflexivity.
  - lia.
Defined.

Example dropped_order :
  (fun st => id <$> pages st) <$> handlePageDrop Toy.dragging 2
  = Some ["page-1"; "page-0"; "page-2"] /\
  (fun st => id <$> pages st) <$> handlePageDrop Toy.dragging 1
  = Some ["page-0"; "page-1"; "page-2"].
Proof. split; vm_compute; reflexivity. Qed.

Lemma handlePageDrop_keeps_order_witness :
  handlePageDrop (Toy.loaded Toy.file_a) 1 = Some (Toy.loaded Toy.file_a) /\
  handlePageDrop (handlePageDragStart (Toy.loaded Toy.file_a) "") 1
  = Some (handlePageDragStart (Toy.loaded Toy.file_a) "") /\
  handlePageDrop (handlePageDragStart (Toy.loaded Toy.file_a) "ghost") 1
  = Some (setDraggedPageId (handlePageDragStart (Toy.loaded Toy.file_a) "ghost") None) /\
  handlePageDrop Toy.dragging 0 = Some (setDraggedPageId Toy.dragging None).
Proof.
  split_and!.
  - apply (proj1 (handlePageDrop_keeps_order (Toy.loaded Toy.file_a) 1)).
    left. reflexivity.
  - apply (proj1 (handlePageDrop_keeps_order
                    (handlePageDragStart (Toy.loaded Toy.file_a) "") 1)).
    right. reflexivity.
  - apply (proj1 (proj2 (handlePageDrop_keeps_order
                           (handlePageDragStart (Toy.loaded Toy.file_a) "ghost") 1))
             "ghost").
    + reflexivity.
    + discriminate.
    + apply (bool_decide_unpack _). vm_compute. exact I.
  - apply (proj2 (proj2 (handlePageDrop_keeps_order Toy.dragging 0)) 0%nat
             (Toy.entry 0 "blob:%A")).
    + reflexivity.
    + discriminate.
    + reflexivity.
    + intros j r Hj. lia.
    + reflexivity.
Defined.


Example edited_saved :
  id <$> pages Toy.edited = ["page-1"; "page-0"] /\
  savePdf Toy.edited = Downloaded "organized-a.pdf" [Byte.x25; Byte.x42; Byte.x41].
Proof. split; vm_compute; reflexivity. Qed.

Lemma savePdf_reads_identities_only_witness :
  savePdf (Toy.loaded Toy.file_a)
  = savePdf (setPages Toy.two_selected
               ((fun p => Toy.entry (originalIndex p) "") <$> pages Toy.two_selected)).
Proof.
  apply (savePdf_reads_identities_only (Toy.loaded Toy.file_a)).
  - reflexivity.
  - split; intros Hd; vm_compute in Hd; discriminate Hd.
  - vm_compute. reflexivity.
Defined.

Lemma movePage_is_movePdf_witness :
  movePage ["a"; "b"; "c"] 1 (1 + 1) = Merger.movePdf ["a"; "b"; "c"] 1 Merger.Down /\
  movePage ["a"; "b"; "c"] 1 (1 - 1) = Merger.movePdf ["a"; "b"; "c"] 1 Merger.Up.
Proof. apply (MergerMore.movePage_is_movePdf ["a"; "b"; "c"] 1). simpl. lia. Defined.

Lemma removePdf_removes_witness :
  Merger.removePdf Toy.two_pdfs "3" = Toy.two_pdfs /\
  S (length (Merger.removePdf Toy.two_pdfs "1")) = length Toy.two_pdfs.
Proof.
  split.
  - destruct (MergerMore.removePdf_removes Toy.two_pdfs "3") as (_ & _ & Habsent & _).
    apply Habsent, (bool_decide_unpack _). vm_compute. exact I.
  - destruct (MergerMore.removePdf_removes Toy.two_pdfs "1") as (_ & _ & _ & _ & Hone).
    apply Hone; apply (bool_decide_unpack _); vm_compute; exact I.
Defined.

Lemma toy_parsed :
  Forall2 (fun pdf doc => load (PDFLib := Toy.lib) (arrayBuffer (Merger.file pdf)) = Some doc)
          Toy.two_pdfs [[Byte.x41; Byte.x42; Byte.x43]; [Byte.x41]].
Proof. repeat constructor. Qed.

Lemma mergePdfs_concatenates_witness :
  Merger.mergePdfs_loop (H := Toy.lib) Toy.two_pdfs create
  = Some [Byte.x41; Byte.x42; Byte.x43; Byte.x41] /\
  Merger.mergePdfs (H := Toy.lib) Toy.two_pdfs Toy.stamp
  = Downloaded "merged-pdfs-2023-11-14.pdf"
      [Byte.x25; Byte.x41; Byte.x42; Byte.x43; Byte.x41].
Proof.
  pose proof (MergerMore.mergePdfs_concatenates (H := Toy.lib) Toy.two_pdfs
                [[Byte.x41; Byte.x42; Byte.x43]; [Byte.x41]] Toy.stamp
                (le_n 2) toy_parsed) as [Hloop Hmerge].
  split; [exact Hloop|]. rewrite Hmerge. vm_compute. reflexivity.
Defined.

Lemma mergePdfs_all_or_nothing_witness :
  Merger.mergePdfs (H := Toy.lib) [Toy.listed "1" Toy.file_a] Toy.stamp = NotStarted /\
  Merger.mergePdfs (H := Toy.lib)
    [Toy.listed "1" Toy.file_a; Toy.listed "2" Toy.file_bad; Toy.listed "3" Toy.file_one]
    Toy.stamp = Alerted.
Proof.
  split.
  - apply (proj1 (MergerMore.mergePdfs_all_or_nothing (H := Toy.lib) _ _)). simpl. lia.
  - apply (proj2 (MergerMore.mergePdfs_all_or_nothing (H := Toy.lib) _ _)); [simpl; lia|].
    apply Exists_cons_tl, Exists_cons_hd. reflexivity.
Defined.

Lemma handleFiles_appends_pdfs_witness :
  let files := [Toy.file_a; Toy.file_png; Toy.file_one] in
  Merger.mergePdfs (H := Toy.lib)
    (Merger.handleFiles (fun _ => "") [] files (fun _ => Toy.stamp) (fun _ => "0.5"))
    Toy.stamp
  = match save (PDFLib := Toy.lib) (concat [[Byte.x41; Byte.x42; Byte.x43]; [Byte.x41]]) with
    | Some blob =>
        Downloaded ("merged-pdfs-" +:+ isoDate (Toy.stamp / msPerDay) +:+ ".pdf") blob
    | None => Alerted
    end.
Proof.
  destruct (MergerMore.handleFiles_appends_pdfs (H := Toy.lib) (fun _ => "") []
              [Toy.file_a; Toy.file_png; Toy.file_one] (fun _ => Toy.stamp)
              (fun _ => "0.5")) as (_ & _ & _ & Hmerge).
  apply Hmerge.
  - repeat constructor.
  - simpl. lia.
Defined.

Example handleFiles_single :
  Merger.file <$> Merger.handleFiles (fun _ => "") Toy.two_pdfs [Toy.file_png; Toy.file_b]
                    (fun _ => Toy.stamp) (fun _ => "0.5")
  = [Toy.file_a; Toy.file_one; Toy.file_b].
Proof. reflexivity. Qed.

Lemma moveImage_clamps_witness :
  (forall t, exists l', ImageToPdf.moveImage ["a"; "b"; "c"] 0 t = Some l' /\
                        l' ≡ₚ ["a"; "b"; "c"] /\ length l' = 3%nat) /\
  (forall t, 0 <= t < 3 ->
     ImageToPdf.moveImage ["a"; "b"; "c"] 0 t = movePage ["a"; "b"; "c"] 0 t) /\
  (forall t, 3 - 1 <= t -> ImageToPdf.moveImage ["a"; "b"; "c"] 0 t = Some ["b"; "c"; "a"]).
Proof. exact (MergerMore.moveImage_clamps ["a"; "b"; "c"] 0 "a" eq_refl). Defined.

Example moveImage_ex :
  ImageToPdf.moveImage ["a"; "b"; "c"] 0 7 = Some ["b"; "c"; "a"] /\
  ImageToPdf.moveImage ["a"; "b"; "c"] 2 (-1) = Some ["a"; "c"; "b"] /\
  movePage ["a"; "b"; "c"] 0 7 = Some ["a"; "b"; "c"].
Proof. repeat split. Qed.

End MoreScenarios.

(** * Facts about suspended handlers *)

Module InterleavedFacts.
Import Organizer Interleaved.

Section Facts.
Context `{PDFLib}.

(** With no action in between, a load and an addition do what
    [Organizer.handleFile] and [Organizer.addPagesFromFile] do in one step. *)
Lemma uninterrupted_load (st : Running) file :
  pending st = [] ->
  ui (settle 2 (handleFile_begin st file)) = (handleFile (ui st) file).1 /\
  pending (settle 2 (handleFile_begin st file)) = [] /\
  isProcessing (settle 2 (handleFile_begin st file)) = false.
Proof.
  intros Hp. unfold handleFile_begin, handleFile. rewrite Hp.
  destruct (load (arrayBuffer file)) as [pdf|] eqn:Hl.
  - destruct pdf as [|x pdf].
    + cbn [settle step pending app lookup list_lookup mbind option_bind resume].
      rewrite Hl. done.
    + set (loop := handleFile_loop (x :: pdf) (length (x :: pdf)) 0 []).
      cbn [settle step pending app lookup list_lookup mbind option_bind resume
           list_insert insert].
      rewrite Hl.
      cbn [settle step pending app lookup list_lookup mbind option_bind resume
           list_insert insert].
      fold loop. by destruct loop.
  - cbn [settle step pending app lookup list_lookup mbind option_bind resume].
    rewrite Hl. done.
Qed.

Lemma uninterrupted_addition (st : Running) files now :
  pending st = [] -> isProcessing st = false ->
  ui (settle 1 (addPages_begin st files now)) = (addPagesFromFile (ui st) files now).1 /\
  pending (settle 1 (addPages_begin st files now)) = [] /\
  isProcessing (settle 1 (addPages_begin st files now)) = false.
Proof.
  intros Hp Hi. unfold addPages_begin, addPagesFromFile.
  destruct files as [[|f fs]|]; cbn [settle step]; rewrite Hp;
    cbn [pending app lookup list_lookup mbind option_bind resume ui];
    [by rewrite Hp, Hi| |by rewrite Hp, Hi].
  destruct (load (arrayBuffer f)) as [newPdf|]; [|done].
  by destruct (addPages_loop _ _ _ _ _ _).
Qed.

End Facts.

(** C8 (the code at the failing input): pages are being added when the user
    resets; the addition ends and leaves its entry behind; during the next
    load the user clicks that entry's card.  When the load has ended, the
    selected identity belongs to no entry, and a deletion, which removes no
    entry, unselects it. *)
Theorem stale_selection :
  exists st,
    run (H := Toy.lib) initial Toy.stale_actions = Some st /\
    pending st = [] /\ isProcessing st = false /\
    id <$> pages (ui st) = ["page-0"; "page-1"; "page-2"] /\
    elements (selectedPages (ui st)) = ["page-1700000000000-0"] /\
    (deleteSelectedPages (ui st)).2 = None /\
    pages (deleteSelectedPages (ui st)).1 = pages (ui st) /\
    elements (selectedPages (deleteSelectedPages (ui st)).1) = [].
Proof. eexists. split_and!; vm_compute; reflexivity. Qed.

End InterleavedFacts.

(** * Deleting all but one *)

Module DeleteScenarios.
Import Organizer.

(** C1 (counterexample): a selection one smaller than the sequence need not
    leave one entry.  With a selected identity that no entry has, two of
    three entries are left; with two entries of one identity (two copies
    made at the same clock reading with the same random number), none is
    left. *)
Lemma delete_all_but_one_fails :
  (size (selectedPages Toy.ghost_selected) = (length (pages Toy.ghost_selected) - 1)%nat /\
   (deleteSelectedPages Toy.ghost_selected).2 = None /\
   length (pages (deleteSelectedPages Toy.ghost_selected).1) = 2%nat) /\
  (run (H := Toy.lib) initial Toy.twin_events = Some Toy.twins /\
   length (pages Toy.twins) = 3%nat /\
   size (selectedPages Toy.twins) = (length (pages Toy.twins) - 1)%nat /\
   (deleteSelectedPages Toy.twins).2 = None /\
   pages (deleteSelectedPages Toy.twins).1 = []).
Proof. split_and!; vm_compute; reflexivity. Qed.

End DeleteScenarios.
